(** * Testnet transaction configuration and the multi-network connection registry

    Shallow embedding of [typescript/infra/config/networks/testnets.ts]
    (the static [configs] table) and of the SDK's [DomainConnection] and
    [MultiProvider] classes.

    JavaScript objects used as keyed containers are association lists in
    property-creation order; [DomainConnection] instances are mutable objects
    and live in an explicit store, the registry holding references to them. *)

From Stdlib Require Import ZArith.
From stdpp Require Import base option list strings gmap.

(** ** JavaScript preliminaries *)

(** Errors a call can raise.  [TypeError] is what reading a property of
    [undefined] raises; [LibraryError] stands for any error value produced
    by the client library; [LookupError] is the registry's own. *)
Inductive JsError : Type :=
  | TypeError
  | LookupError
  | LibraryError (reason : string).

(** A call either returns or throws. *)
Inductive Completion (A : Type) : Type :=
  | Normal (a : A)
  | Throw (e : JsError).
Arguments Normal {A} a.
Arguments Throw {A} e.

(** [xs.map(f)] where [f] may throw: elements are visited left to right and
    the first exception aborts the traversal. *)
Fixpoint Array_map_throwing {A B : Type} (f : A -> Completion B) (xs : list A)
  : Completion (list B) :=
  match xs with
  | [] => Normal []
  | x :: xs' =>
      match f x with
      | Throw e => Throw e
      | Normal y =>
          match Array_map_throwing f xs' with
          | Throw e => Throw e
          | Normal ys => Normal (y :: ys)
          end
      end
  end.

(** *** Objects as ordered keyed containers

    The keys used here are chain names (alphabetic string literals), for
    which own-property order is creation order. *)
Section JsObject.
Context {K V : Type} `{EqDecision K}.

(** [o[k]] *)
Fixpoint obj_get (k : K) (o : list (K * V)) : option V :=
  match o with
  | [] => None
  | (k', v) :: o' => if decide (k = k') then Some v else obj_get k o'
  end.

(** [o[k] = v]: an existing property keeps its position, a new one is
    created last. *)
Fixpoint obj_set (k : K) (v : V) (o : list (K * V)) : list (K * V) :=
  match o with
  | [] => [(k, v)]
  | (k', v') :: o' =>
      if decide (k = k') then (k, v) :: o' else (k', v') :: obj_set k v o'
  end.

(** Adding the entries [es] to the object [o], in order. *)
Definition set_all (o es : list (K * V)) : list (K * V) :=
  foldl (fun o kv => obj_set kv.1 kv.2 o) o es.

(** [Object.fromEntries(es)] adds the entries to a new object. *)
Definition Object_fromEntries (es : list (K * V)) : list (K * V) :=
  set_all [] es.

Definition Object_entries (o : list (K * V)) : list (K * V) := o.
Definition Object_keys (o : list (K * V)) : list K := o.*1.
Definition Object_values (o : list (K * V)) : list V := o.*2.
End JsObject.

(** *** Promises

    A promise is described by its eventual settlement and the tick at which
    it settles; [None] is a promise that stays pending. *)
Inductive Settlement (A : Type) : Type :=
  | Fulfilled (value : A)
  | Rejected (reason : JsError).
Arguments Fulfilled {A} value.
Arguments Rejected {A} reason.

Definition Promise (A : Type) : Type := option (nat * Settlement A).

Section PromiseAll.
Context {A : Type}.

Definition fulfils (p : Promise A) : Prop := ∃ t v, p = Some (t, Fulfilled v).
Definition rejects (p : Promise A) : Prop := ∃ t e, p = Some (t, Rejected e).

(** The earliest rejection among the inputs (the leftmost one among
    those of the same tick). *)
Fixpoint first_rejection (ps : list (Promise A)) : option (nat * JsError) :=
  match ps with
  | [] => None
  | p :: ps' =>
      match p, first_rejection ps' with
      | Some (t, Rejected e), Some (t', e') =>
          if decide (t' < t) then Some (t', e') else Some (t, e)
      | Some (t, Rejected e), None => Some (t, e)
      | _, r => r
      end
  end.

(** When every input fulfils: the values in input order, available once
    the last input has settled. *)
Fixpoint all_fulfilled (ps : list (Promise A)) : option (nat * list A) :=
  match ps with
  | [] => Some (0, [])
  | Some (t, Fulfilled v) :: ps' =>
      match all_fulfilled ps' with
      | Some (t', vs) => Some (Nat.max t t', v :: vs)
      | None => None
      end
  | _ => None
  end.

(** [Promise.all(ps)]: rejects as soon as one input rejects, with that
    input's reason; otherwise fulfils with all the values once every
    input has fulfilled; otherwise stays pending. *)
Definition Promise_all (ps : list (Promise A)) : Promise (list A) :=
  match first_rejection ps with
  | Some (t, e) => Some (t, Rejected e)
  | None =>
      match all_fulfilled ps with
      | Some (t, vs) => Some (t, Fulfilled vs)
      | None => None
      end
  end.
End PromiseAll.

(** *** The [ethers] client library

    Provider and signer handles are opaque to the registry.  Their interface
    is the one [ethers] declares: [Signer.provider] is a read-only property,
    [Signer.connect(provider)] returns a signer (and may throw when the
    signer cannot change provider), and [provider.ready] is a promise of the
    network the endpoint serves. *)
Class Ethers : Type := {
  Provider : Type;
  Signer : Type;
  Network : Type;
  Signer_provider : Signer -> option Provider;
  Signer_connect : Signer -> Provider -> Completion Signer;
  Provider_ready : Provider -> Promise Network;
}.

(** [ethers.Overrides] values: a [BigNumber] or a plain number. *)
Inductive OverrideValue : Type :=
  | BigNumber_from (n : Z)
  | Number (n : Z).

#[global] Instance OverrideValue_eq_dec : EqDecision OverrideValue.
Proof. solve_decision. Defined.

(** [ethers.Overrides]: an object from field name to value. *)
Abbreviation Overrides := (gmap string OverrideValue).

(** ** The static configuration table *)
Module Testnets.

Local Open Scope Z_scope.

Record TransactionConfig : Type := {
  confirmations : Z;
  overrides : Overrides;
}.

Definition alfajores : TransactionConfig :=
  {| confirmations := 1; overrides := ∅ |}.

Definition fuji : TransactionConfig :=
  {| confirmations := 1; overrides := ∅ |}.

Definition goerli : TransactionConfig :=
  {| confirmations := 3;
     overrides := {[ "gasPrice" := BigNumber_from 10000000000 ]} |}.

Definition kovan : TransactionConfig :=
  {| confirmations := 3;
     overrides := <[ "gasPrice" := BigNumber_from 10000000000 ]>
                    {[ "gasLimit" := Number 15000000 ]} |}.

Definition mumbai : TransactionConfig :=
  {| confirmations := 3; overrides := ∅ |}.

Definition rinkarby : TransactionConfig :=
  {| confirmations := 2;
     overrides := <[ "gasPrice" := Number 0 ]>
                    {[ "gasLimit" := Number 600000000 ]} |}.

Definition rinkeby : TransactionConfig :=
  {| confirmations := 3; overrides := ∅ |}.

Definition ropsten : TransactionConfig :=
  {| confirmations := 3;
     overrides := {[ "gasPrice" := BigNumber_from 10000000000 ]} |}.

(** [keyof typeof _configs] *)
Inductive TestnetName : Type :=
  | Alfajores | Fuji | Goerli | Kovan | Mumbai | Rinkarby | Rinkeby | Ropsten.

#[global] Instance TestnetName_eq_dec : EqDecision TestnetName.
Proof. solve_decision. Defined.

Definition _configs : list (TestnetName * TransactionConfig) :=
  [ (Alfajores, alfajores); (Fuji, fuji); (Goerli, goerli); (Kovan, kovan);
    (Mumbai, mumbai); (Rinkarby, rinkarby); (Rinkeby, rinkeby);
    (Ropsten, ropsten) ].

Definition configs : list (TestnetName * TransactionConfig) := _configs.

(** The fee fields the table may set. *)
Definition fee_fields : gset string := {[ "gasPrice"; "gasLimit" ]}.

End Testnets.

(** References to objects of the store. *)
Abbreviation ref := nat.

(** ** The connection registry *)
Section Registry.
Context `{Ethers}.
Context {ChainName : Type} `{EqDecision ChainName}.

(** [interface IDomainConnection]: every field is optional. *)
Record IDomainConnection : Type := {
  idc_provider : option Provider;
  idc_signer : option Signer;
  idc_overrides : option Overrides;
  idc_confirmations : option Z;
}.

(** The object literal [{}]. *)
Definition empty_object : IDomainConnection :=
  {| idc_provider := None; idc_signer := None;
     idc_overrides := None; idc_confirmations := None |}.

(** [class DomainConnection] *)
Record DomainConnection : Type := {
  provider : option Provider;
  signer : option Signer;
  overrides : Overrides;
  confirmations : Z;
}.

(** [constructor(dc: IDomainConnection = {})]; [a ?? b] is [b] exactly when
    [a] is absent. *)
Definition DomainConnection_constructor (dc : IDomainConnection)
  : DomainConnection :=
  {| provider := idc_provider dc;
     signer := idc_signer dc;
     overrides := default ∅ (idc_overrides dc);
     confirmations := default 0%Z (idc_confirmations dc) |}.

(** Methods take the receiver [this] last and return the method's result
    together with the receiver after the call. *)

Definition registerOverrides (overrides' : Overrides) (this : DomainConnection)
  : Overrides * DomainConnection :=
  (overrides',
   {| provider := provider this; signer := signer this;
      overrides := overrides'; confirmations := confirmations this |}).

Definition registerConfirmations (confirmations' : Z) (this : DomainConnection)
  : Z * DomainConnection :=
  (confirmations',
   {| provider := provider this; signer := signer this;
      overrides := overrides this; confirmations := confirmations' |}).

(** [this.provider = provider] *)
Definition assign_provider (provider' : Provider) (this : DomainConnection)
  : DomainConnection :=
  {| provider := Some provider'; signer := signer this;
     overrides := overrides this; confirmations := confirmations this |}.

(** [this.signer = signer] *)
Definition assign_signer (signer' : Signer) (this : DomainConnection)
  : DomainConnection :=
  {| provider := provider this; signer := Some signer';
     overrides := overrides this; confirmations := confirmations this |}.

(** [registerProvider]: [this.signer.connect(provider);] is an expression
    statement, so the signer it returns is dropped; an exception it throws
    leaves the method before the assignment. *)
Definition registerProvider (provider' : Provider) (this : DomainConnection)
  : Completion unit * DomainConnection :=
  match signer this with
  | Some s =>
      match Signer_connect s provider' with
      | Throw e => (Throw e, this)
      | Normal _ => (Normal tt, assign_provider provider' this)
      end
  | None => (Normal tt, assign_provider provider' this)
  end.

(** [registerSigner]: likewise, the result of [signer.connect(this.provider)]
    is dropped and the argument itself is stored. *)
Definition registerSigner (signer' : Signer) (this : DomainConnection)
  : Completion unit * DomainConnection :=
  match provider this with
  | Some p =>
      match Signer_connect signer' p with
      | Throw e => (Throw e, this)
      | Normal _ => (Normal tt, assign_signer signer' this)
      end
  | None => (Normal tt, assign_signer signer' this)
  end.

(** [getConnection = () => this.signer ?? this.provider] *)
Definition getConnection (this : DomainConnection)
  : option (Signer + Provider) :=
  match signer this with
  | Some s => Some (inl s)
  | None =>
      match provider this with
      | Some p => Some (inr p)
      | None => None
      end
  end.

(** *** The store of [DomainConnection] objects *)

(** The store lists the objects allocated so far; a reference is the index
    of its object. *)
Definition Store : Type := list DomainConnection.

(** [new DomainConnection(dc)] allocates a fresh object. *)
Definition new_DomainConnection (dc : IDomainConnection) (σ : Store)
  : ref * Store :=
  (length σ, σ ++ [DomainConnection_constructor dc]).

(** [r.m(...)]: run method [m] on the object [r] refers to and write the
    receiver back in place.  [None] only for a reference that was never
    allocated. *)
Definition invoke {A : Type} (r : ref)
    (m : DomainConnection -> A * DomainConnection) (σ : Store)
  : option (A * Store) :=
  match σ !! r with
  | Some this => let '(a, this') := m this in Some (a, <[r := this']> σ)
  | None => None
  end.

(** *** [MultiGeneric], the keyed container [MultiProvider] extends *)

Record MultiProvider : Type := {
  chainMap : list (ChainName * ref);
}.

(** Modelled from the spec: [MultiGeneric.get] (the base class is declared
    in [./utils], which is not part of the sources at hand) returns the
    record of the network and fails with a lookup error for a network that
    was not part of construction. *)
Definition MultiGeneric_get (this : MultiProvider) (network : ChainName)
  : Completion ref :=
  match obj_get network (chainMap this) with
  | Some r => Normal r
  | None => Throw LookupError
  end.

(** Modelled from the spec: [MultiGeneric.entries] lists the (identifier,
    record) pairs in registry iteration order, the insertion order at
    construction. *)
Definition MultiGeneric_entries (this : MultiProvider)
  : list (ChainName * ref) :=
  Object_entries (chainMap this).

(** Modelled from the spec: [MultiGeneric.values] lists the records in
    registry iteration order. *)
Definition MultiGeneric_values (this : MultiProvider) : list ref :=
  Object_values (chainMap this).

(** *** [class MultiProvider] *)

(** [params.map(([network, v]) => [network, new DomainConnection(v)])] *)
Fixpoint providerEntries (params : list (ChainName * IDomainConnection))
    (σ : Store) : list (ChainName * ref) * Store :=
  match params with
  | [] => ([], σ)
  | (network, v) :: params' =>
      let '(r, σ1) := new_DomainConnection v σ in
      let '(es, σ2) := providerEntries params' σ1 in
      ((network, r) :: es, σ2)
  end.

(** [constructor(networks)]: [inl] is the array form, [inr] the mapping
    form (an object, hence with pairwise distinct keys). *)
Definition MultiProvider_constructor
    (networks : list ChainName + list (ChainName * IDomainConnection))
    (σ : Store) : MultiProvider * Store :=
  let params :=
    match networks with
    | inl arr => map (fun v => (v, empty_object)) arr
    | inr obj => Object_entries obj
    end in
  let '(es, σ') := providerEntries params σ in
  ({| chainMap := Object_fromEntries es |}, σ').

(** The identifiers the constructor is given, in either input form. *)
Definition identifiers
    (networks : list ChainName + list (ChainName * IDomainConnection))
  : list ChainName :=
  match networks with
  | inl arr => arr
  | inr obj => Object_keys obj
  end.

Definition getDomainConnection (this : MultiProvider) (network : ChainName)
  : Completion ref :=
  MultiGeneric_get this network.

(** [this.entries().filter(([chain]) => chains.includes(chain))] *)
Definition getChains (this : MultiProvider) (chains : list ChainName)
  : list (ChainName * ref) :=
  filter (fun e => e.1 ∈ chains) (MultiGeneric_entries this).

Definition getAll (this : MultiProvider) : list ref :=
  MultiGeneric_values this.

(** [dc.provider!.ready]: the [!] is erased at run time, so an absent
    provider makes the property read throw. *)
Definition provider_ready (dc : DomainConnection)
  : Completion (Promise Network) :=
  match provider dc with
  | Some p => Normal (Provider_ready p)
  | None => Throw TypeError
  end.

(** The objects [this.values()] refers to; [None] only when the registry
    holds a reference that was never allocated. *)
Definition records (this : MultiProvider) (σ : Store)
  : option (list DomainConnection) :=
  mapM (fun r => σ !! r) (MultiGeneric_values this).

(** The record has a registered provider whose readiness check succeeds. *)
Definition check_succeeds (dc : DomainConnection) : Prop :=
  ∃ p, provider dc = Some p ∧ fulfils (Provider_ready p).

(** The record has a registered provider whose readiness check fails at
    tick [t] with reason [e]. *)
Definition check_fails (t : nat) (e : JsError) (dc : DomainConnection)
  : Prop :=
  ∃ p, provider dc = Some p ∧ Provider_ready p = Some (t, Rejected e).

(** [ready()]: the [map] callback may throw, in which case no promise is
    made at all. *)
Definition ready (this : MultiProvider) (σ : Store)
  : option (Completion (Promise (list Network))) :=
  match records this σ with
  | Some dcs =>
      Some match Array_map_throwing provider_ready dcs with
           | Normal ps => Normal (Promise_all ps)
           | Throw e => Throw e
           end
  | None => None
  end.

(** *** Registry states

    Every reference the registry holds is allocated, and distinct networks
    hold distinct objects. *)
Definition well_formed (this : MultiProvider) (σ : Store) : Prop :=
  NoDup (chainMap this).*1 ∧
  NoDup (chainMap this).*2 ∧
  Forall (fun r => (r < length σ)%nat) (chainMap this).*2.

(** Two method calls commute from [σ]: either order returns the same two
    results and ends in the same store. *)
Definition calls_commute {A B : Type}
    (r1 : ref) (m1 : DomainConnection -> A * DomainConnection)
    (r2 : ref) (m2 : DomainConnection -> B * DomainConnection)
    (σ : Store) : Prop :=
  ∃ a b σ1 σ2 σ',
    invoke r1 m1 σ = Some (a, σ1) ∧ invoke r2 m2 σ1 = Some (b, σ') ∧
    invoke r2 m2 σ = Some (b, σ2) ∧ invoke r1 m1 σ2 = Some (a, σ').

End Registry.

(** ** A concrete client library

    The two handles the registry itself constructs: a JSON-RPC provider
    built from a URL and a wallet built from a private key.  A wallet is
    immutable; connecting it builds a new wallet over the same key. *)
Record JsonRpcProvider : Type := {
  connection_url : string;
  detectNetwork : Promise Z;
}.

Record Wallet : Type := {
  privateKey : string;
  wallet_provider : option JsonRpcProvider;
}.

(** [new ethers.Wallet(privatekey)]: no provider yet. *)
Definition new_Wallet (privatekey : string) : Wallet :=
  {| privateKey := privatekey; wallet_provider := None |}.

(** [wallet.connect(provider)] is [new Wallet(this, provider)]. *)
Definition Wallet_connect (w : Wallet) (p : JsonRpcProvider)
  : Completion Wallet :=
  Normal {| privateKey := privateKey w; wallet_provider := Some p |}.

#[global] Instance ethers_v5 : Ethers := {|
  Provider := JsonRpcProvider;
  Signer := Wallet;
  Network := Z;
  Signer_provider := wallet_provider;
  Signer_connect := Wallet_connect;
  Provider_ready := detectNetwork;
|}.

(** ** Handles the record builds itself

    [registerRpcURL] and [registerWalletSigner] construct their handle with
    the library's constructors, and [getAddress] asks the signer; these
    three entry points of the library are taken as given, a constructor
    being free to throw. *)
Class EthersHandles `{Ethers} : Type := {
  JsonRpcProvider_new : string -> Completion Provider;
  Wallet_new : string -> Completion Signer;
  Signer_getAddress : Signer -> Promise string;
}.

Section Conveniences.
Context `{EthersHandles}.

(** [registerRpcURL(url)]: the argument is evaluated first, so a throwing
    constructor leaves the method before [registerProvider] is entered. *)
Definition registerRpcURL (url : string) (this : DomainConnection)
  : Completion unit * DomainConnection :=
  match JsonRpcProvider_new url with
  | Throw e => (Throw e, this)
  | Normal p => registerProvider p this
  end.

(** [registerWalletSigner = (privatekey) =>
      this.registerSigner(new ethers.Wallet(privatekey))] *)
Definition registerWalletSigner (privatekey : string) (this : DomainConnection)
  : Completion unit * DomainConnection :=
  match Wallet_new privatekey with
  | Throw e => (Throw e, this)
  | Normal w => registerSigner w this
  end.

(** [getAddress = () => this.signer?.getAddress()] *)
Definition getAddress (this : DomainConnection) : option (Promise string) :=
  match signer this with
  | Some s => Some (Signer_getAddress s)
  | None => None
  end.

End Conveniences.

(** ** Sample handles and registries *)

Definition alfajores_rpc : @Provider ethers_v5 :=
  {| connection_url := "https://alfajores-forno.celo-testnet.org";
     detectNetwork := Some (4, Fulfilled 44787%Z) |}.

Definition fuji_rpc : @Provider ethers_v5 :=
  {| connection_url := "https://api.avax-test.network/ext/bc/C/rpc";
     detectNetwork := Some (2, Fulfilled 43113%Z) |}.

Definition unreachable_rpc : @Provider ethers_v5 :=
  {| connection_url := "http://localhost:1";
     detectNetwork := Some (3, Rejected (LibraryError "NETWORK_ERROR")) |}.

Definition deployer : @Signer ethers_v5 := new_Wallet "0x0123456789abcdef".

(** [{ provider }] *)
Definition with_provider (p : @Provider ethers_v5) : IDomainConnection :=
  {| idc_provider := Some p; idc_signer := None;
     idc_overrides := None; idc_confirmations := None |}.

(** [new MultiProvider(["alfajores", "fuji"])] in an empty store. *)
Definition two_testnets : MultiProvider * Store :=
  MultiProvider_constructor (inl [Testnets.Alfajores; Testnets.Fuji]) [].

(** [new MultiProvider({ alfajores: { provider }, fuji: { provider } })]. *)
Definition two_reachable : MultiProvider * Store :=
  MultiProvider_constructor
    (inr [(Testnets.Alfajores, with_provider alfajores_rpc);
          (Testnets.Fuji, with_provider fuji_rpc)]) [].

(** The same with an endpoint that cannot be reached for fuji. *)
Definition one_unreachable : MultiProvider * Store :=
  MultiProvider_constructor
    (inr [(Testnets.Alfajores, with_provider alfajores_rpc);
          (Testnets.Fuji, with_provider unreachable_rpc)]) [].

(** The same with no provider at all for fuji. *)
Definition one_unregistered : MultiProvider * Store :=
  MultiProvider_constructor
    (inr [(Testnets.Alfajores, with_provider alfajores_rpc);
          (Testnets.Fuji, empty_object)]) [].

(** A sample world for the constructors: which network a URL serves and
    which strings are accepted as private keys is decided outside the
    program; this instance fixes one such choice. *)
Definition sample_endpoint (url : string) : Promise Z :=
  if decide (url = connection_url alfajores_rpc) then
    detectNetwork alfajores_rpc
  else if decide (url = connection_url fuji_rpc) then detectNetwork fuji_rpc
  else Some (3, Rejected (LibraryError "NETWORK_ERROR")).

Definition sample_key_accepted (privatekey : string) : bool :=
  bool_decide (String.length privatekey = 66).

Definition sample_key : string :=
  "0x0123456789012345678901234567890123456789012345678901234567890123".

Definition sample_address (privatekey : string) : string :=
  if decide (privatekey = sample_key) then
    "0x14791697260E4c9A71f18484C9f997B308e59325"
  else "0x0000000000000000000000000000000000000000".

#[global] Instance sample_handles : EthersHandles (H := ethers_v5) := {|
  JsonRpcProvider_new url :=
    Normal {| connection_url := url; detectNetwork := sample_endpoint url |};
  Wallet_new privatekey :=
    if sample_key_accepted privatekey then Normal (new_Wallet privatekey)
    else Throw (LibraryError "invalid private key");
  Signer_getAddress w := Some (0, Fulfilled (sample_address (privateKey w)));
|}.

(** An endpoint that never answers, and a registry that uses it. *)
Definition silent_rpc : @Provider ethers_v5 :=
  {| connection_url := "http://10.255.255.1:8545"; detectNetwork := None |}.

Definition one_silent : MultiProvider * Store :=
  MultiProvider_constructor
    (inr [(Testnets.Alfajores, with_provider alfajores_rpc);
          (Testnets.Fuji, with_provider silent_rpc)]) [].

(** ** Facts about ordered objects *)
Section JsObjectFacts.
Context {K V : Type} `{EqDecision K}.
Implicit Types (k : K) (v : V) (o es : list (K * V)).

Lemma obj_get_set_eq k v o : obj_get k (obj_set k v o) = Some v.
Proof.
  induction o as [|[k' v'] o IH]; simpl.
  - by rewrite decide_True.
  - destruct (decide (k = k')) as [->|Hne]; simpl.
    + by rewrite decide_True.
    + by rewrite decide_False.
Qed.

Lemma obj_get_set_ne k k' v o :
  k ≠ k' → obj_get k' (obj_set k v o) = obj_get k' o.
Proof.
  intros Hne. induction o as [|[k0 v0] o IH]; simpl.
  - rewrite decide_False; [done | congruence].
  - destruct (decide (k = k0)) as [->|Hne0]; simpl.
    + rewrite !decide_False; [done | congruence | congruence].
    + destruct (decide (k' = k0)); [done | exact IH].
Qed.

Lemma obj_get_None k o : obj_get k o = None ↔ k ∉ o.*1.
Proof.
  induction o as [|[k' v'] o IH]; simpl.
  - split; [intros _; apply not_elem_of_nil | done].
  - rewrite not_elem_of_cons. destruct (decide (k = k')) as [->|Hne].
    + split; [done | intros [? _]; done].
    + rewrite IH. tauto.
Qed.

Lemma obj_get_Some_elem k v o : obj_get k o = Some v → (k, v) ∈ o.
Proof.
  induction o as [|[k' v'] o IH]; simpl; [done|].
  destruct (decide (k = k')) as [->|Hne].
  - intros [= ->]. apply list_elem_of_here.
  - intros Hg. apply list_elem_of_further, IH, Hg.
Qed.

Lemma obj_get_elem_NoDup k v o :
  NoDup o.*1 → (k, v) ∈ o → obj_get k o = Some v.
Proof.
  induction o as [|[k' v'] o IH]; simpl.
  - intros _ Hin. by apply elem_of_nil in Hin.
  - rewrite NoDup_cons. intros [Hnotin Hnd] Hin.
    apply elem_of_cons in Hin as [[= -> ->]|Hin].
    + by rewrite decide_True.
    + destruct (decide (k = k')) as [->|Hne]; [|by apply IH].
      exfalso. apply Hnotin.
      apply (list_elem_of_fmap_2 fst) in Hin. exact Hin.
Qed.

Lemma obj_set_keys_in k v o : k ∈ o.*1 → (obj_set k v o).*1 = o.*1.
Proof.
  induction o as [|[k' v'] o IH]; simpl.
  - intros Hin. by apply elem_of_nil in Hin.
  - intros Hin. destruct (decide (k = k')) as [->|Hne]; simpl; [done|].
    f_equal. apply IH. apply elem_of_cons in Hin as [?|?]; [done | done].
Qed.

Lemma obj_set_keys_notin k v o : k ∉ o.*1 → obj_set k v o = o ++ [(k, v)].
Proof.
  induction o as [|[k' v'] o IH]; simpl; [done|].
  rewrite not_elem_of_cons. intros [Hne Hnotin].
  rewrite decide_False; [|done]. by rewrite IH.
Qed.

Lemma obj_set_elem_keys k k' v o :
  k' ∈ (obj_set k v o).*1 ↔ k' = k ∨ k' ∈ o.*1.
Proof.
  destruct (decide (k ∈ o.*1)) as [Hin|Hnotin].
  - rewrite obj_set_keys_in; [|done]. split; [tauto|]. by intros [->|?].
  - rewrite obj_set_keys_notin; [|done].
    rewrite fmap_app, elem_of_app; simpl. rewrite list_elem_of_singleton. tauto.
Qed.

Lemma obj_set_keys_NoDup k v o : NoDup o.*1 → NoDup (obj_set k v o).*1.
Proof.
  intros Hnd. destruct (decide (k ∈ o.*1)) as [Hin|Hnotin].
  - by rewrite obj_set_keys_in.
  - rewrite obj_set_keys_notin; [|done]. rewrite fmap_app; simpl.
    apply NoDup_app. split; [done|]. split; [|apply NoDup_singleton].
    intros x Hx Hx'. apply list_elem_of_singleton in Hx' as ->. done.
Qed.

Lemma obj_set_elem_values k v x o :
  x ∈ (obj_set k v o).*2 → x = v ∨ x ∈ o.*2.
Proof.
  induction o as [|[k' v'] o IH]; simpl.
  - rewrite list_elem_of_singleton. tauto.
  - destruct (decide (k = k')) as [->|Hne]; simpl; rewrite !elem_of_cons.
    + tauto.
    + intros [->|Hx]; [tauto|]. destruct (IH Hx); tauto.
Qed.

Lemma obj_set_values_NoDup k v o :
  NoDup o.*2 → v ∉ o.*2 → NoDup (obj_set k v o).*2.
Proof.
  induction o as [|[k' v'] o IH]; simpl.
  - intros _ _. apply NoDup_singleton.
  - rewrite NoDup_cons, not_elem_of_cons. intros [Hv' Hnd] [Hne Hv].
    destruct (decide (k = k')) as [->|Hne']; simpl; apply NoDup_cons.
    + done.
    + split; [|by apply IH].
      intros Hx. apply obj_set_elem_values in Hx as [->|Hx]; done.
Qed.

Lemma set_all_nil o : set_all o [] = o.
Proof. reflexivity. Qed.

Lemma set_all_cons o k v es :
  set_all o ((k, v) :: es) = set_all (obj_set k v o) es.
Proof. reflexivity. Qed.

Lemma set_all_keys_NoDup es : ∀ o, NoDup o.*1 → NoDup (set_all o es).*1.
Proof.
  induction es as [|[k v] es IH]; intros o Hnd; [done|].
  rewrite set_all_cons. apply IH, obj_set_keys_NoDup, Hnd.
Qed.

Lemma set_all_elem_keys es :
  ∀ o k, k ∈ (set_all o es).*1 ↔ k ∈ o.*1 ∨ k ∈ es.*1.
Proof.
  induction es as [|[k0 v0] es IH]; intros o k.
  - rewrite set_all_nil; simpl. rewrite elem_of_nil. tauto.
  - rewrite set_all_cons, IH, obj_set_elem_keys; simpl.
    rewrite elem_of_cons. tauto.
Qed.

Lemma set_all_values_NoDup es :
  ∀ o, NoDup (o.*2 ++ es.*2) → NoDup (set_all o es).*2.
Proof.
  induction es as [|[k v] es IH]; intros o.
  - rewrite set_all_nil; simpl. by rewrite app_nil_r.
  - rewrite set_all_cons; simpl. intros Hnd. apply IH.
    apply NoDup_app in Hnd as (Ho & Hdisj & Hes).
    apply NoDup_cons in Hes as [Hv Hes].
    apply NoDup_app. split; [|split; [|done]].
    + apply obj_set_values_NoDup; [done|].
      intros Hin. apply (Hdisj v Hin). apply list_elem_of_here.
    + intros x Hx Hx'. apply obj_set_elem_values in Hx as [->|Hx]; [done|].
      apply (Hdisj x Hx). by apply list_elem_of_further.
Qed.

Lemma set_all_elem_values es :
  ∀ o x, x ∈ (set_all o es).*2 → x ∈ o.*2 ∨ x ∈ es.*2.
Proof.
  induction es as [|[k v] es IH]; intros o x; [rewrite set_all_nil; tauto|].
  rewrite set_all_cons; simpl.
  intros Hx. apply IH in Hx as [Hx|Hx].
  - apply obj_set_elem_values in Hx as [->|Hx];
      [right; apply list_elem_of_here | tauto].
  - right. by apply list_elem_of_further.
Qed.

Lemma set_all_fresh es : ∀ o, NoDup (o.*1 ++ es.*1) → set_all o es = o ++ es.
Proof.
  induction es as [|[k v] es IH]; intros o.
  - intros _. rewrite set_all_nil. by rewrite app_nil_r.
  - rewrite set_all_cons; simpl.
    intros Hnd. apply NoDup_app in Hnd as (Ho & Hdisj & Hes).
    apply NoDup_cons in Hes as [Hk Hes].
    assert (k ∉ o.*1) as Hko.
    { intros Hin. apply (Hdisj k Hin). apply list_elem_of_here. }
    rewrite obj_set_keys_notin; [|done].
    rewrite IH.
    + by rewrite <- app_assoc.
    + rewrite fmap_app; simpl. rewrite <- app_assoc; simpl.
      apply NoDup_app. split; [done|]. split; [|by apply NoDup_cons].
      intros x Hx Hx'. apply (Hdisj x Hx). exact Hx'.
Qed.

Lemma obj_get_snoc k k0 v0 o :
  obj_get k (o ++ [(k0, v0)])
  = match obj_get k o with
    | Some v => Some v
    | None => if decide (k = k0) then Some v0 else None
    end.
Proof.
  induction o as [|[k1 v1] o IH]; simpl; [done|].
  destruct (decide (k = k1)); [done | exact IH].
Qed.

(** The last entry for a key wins. *)
Lemma set_all_get es :
  ∀ o k, obj_get k (set_all o es)
         = match obj_get k (reverse es) with
           | Some v => Some v
           | None => obj_get k o
           end.
Proof.
  induction es as [|[k0 v0] es IH]; intros o k; [done|].
  rewrite set_all_cons, IH, reverse_cons, obj_get_snoc.
  destruct (obj_get k (reverse es)) as [v|]; [done|].
  destruct (decide (k = k0)) as [->|Hne].
  - apply obj_get_set_eq.
  - apply obj_get_set_ne. congruence.
Qed.

Lemma Object_fromEntries_set_all es : Object_fromEntries es = set_all [] es.
Proof. reflexivity. Qed.

End JsObjectFacts.

(** ** Construction of the registry *)
Section ConstructionFacts.
Context `{Ethers}.
Context {ChainName : Type} `{EqDecision ChainName}.
Implicit Types (σ : Store) (params : list (ChainName * IDomainConnection)).
Implicit Types (this : MultiProvider (ChainName := ChainName)).
Implicit Types
  (networks : list ChainName + list (ChainName * IDomainConnection)).

Lemma providerEntries_cons network v params σ :
  providerEntries ((network, v) :: params) σ
  = ((network, length σ)
       :: (providerEntries params (σ ++ [DomainConnection_constructor v])).1,
     (providerEntries params (σ ++ [DomainConnection_constructor v])).2).
Proof.
  simpl. unfold new_DomainConnection.
  by destruct (providerEntries params _).
Qed.

Lemma providerEntries_keys params :
  ∀ σ, (providerEntries params σ).1.*1 = params.*1.
Proof.
  induction params as [|[network v] params IH]; intros σ; [done|].
  rewrite providerEntries_cons; simpl. by rewrite IH.
Qed.

Lemma providerEntries_refs params :
  ∀ σ, (providerEntries params σ).1.*2 = seq (length σ) (length params).
Proof.
  induction params as [|[network v] params IH]; intros σ; [done|].
  rewrite providerEntries_cons; simpl. rewrite IH, length_app; simpl.
  by rewrite Nat.add_1_r.
Qed.

Lemma providerEntries_store params :
  ∀ σ, (providerEntries params σ).2
       = σ ++ (DomainConnection_constructor <$> params.*2).
Proof.
  induction params as [|[network v] params IH]; intros σ.
  - simpl. by rewrite app_nil_r.
  - rewrite providerEntries_cons; simpl. rewrite IH. by rewrite <- app_assoc.
Qed.

Lemma providerEntries_lookup params :
  ∀ σ i network v,
    params !! i = Some (network, v) →
    (providerEntries params σ).1 !! i = Some (network, (length σ + i)%nat) ∧
    (providerEntries params σ).2 !! (length σ + i)%nat
    = Some (DomainConnection_constructor v).
Proof.
  induction params as [|[network0 v0] params IH]; intros σ i network v;
    [done|].
  rewrite providerEntries_cons. destruct i as [|i]; simpl.
  - intros [= -> ->]. rewrite Nat.add_0_r. split; [done|].
    rewrite providerEntries_store, <- app_assoc.
    by apply list_lookup_middle.
  - intros Hi. destruct (IH (σ ++ [DomainConnection_constructor v0]) i _ _ Hi)
      as [He Hs].
    rewrite length_app in He, Hs; simpl in He, Hs.
    replace (length σ + S i)%nat with (length σ + 1 + i)%nat by lia. done.
Qed.

Lemma providerEntries_length params σ :
  length (providerEntries params σ).2 = (length σ + length params)%nat.
Proof.
  rewrite providerEntries_store, length_app, !length_fmap. done.
Qed.

(** Allocation leaves the objects already in the store alone. *)
Lemma providerEntries_frame params σ r :
  (r < length σ)%nat → (providerEntries params σ).2 !! r = σ !! r.
Proof.
  intros Hr. rewrite providerEntries_store. by apply lookup_app_l.
Qed.

Lemma constructor_chainMap networks σ :
  chainMap (MultiProvider_constructor networks σ).1
  = Object_fromEntries
      (providerEntries
         match networks with
         | inl arr => map (fun v => (v, empty_object)) arr
         | inr obj => Object_entries obj
         end σ).1.
Proof.
  unfold MultiProvider_constructor.
  by destruct (providerEntries _ σ).
Qed.

Lemma constructor_store networks σ :
  (MultiProvider_constructor networks σ).2
  = (providerEntries
       match networks with
       | inl arr => map (fun v => (v, empty_object)) arr
       | inr obj => Object_entries obj
       end σ).2.
Proof.
  unfold MultiProvider_constructor.
  by destruct (providerEntries _ σ).
Qed.

(** Whatever the input, the constructor yields a well-formed registry. *)
Lemma constructor_well_formed networks σ :
  well_formed (MultiProvider_constructor networks σ).1
              (MultiProvider_constructor networks σ).2.
Proof.
  unfold well_formed. rewrite constructor_chainMap, constructor_store.
  set (params := match networks with inl _ => _ | inr _ => _ end).
  pose proof (providerEntries_refs params σ) as Hrefs.
  split; [|split].
  - apply set_all_keys_NoDup. constructor.
  - apply set_all_values_NoDup; simpl. rewrite Hrefs. apply NoDup_seq.
  - apply Forall_forall. intros r Hr.
    apply set_all_elem_values in Hr as [Hr|Hr].
    + by apply elem_of_nil in Hr.
    + rewrite Hrefs in Hr. apply elem_of_seq in Hr.
      rewrite providerEntries_length. lia.
Qed.

End ConstructionFacts.

(** ** The configuration table *)

(** C9. Every network of the static configuration table (alfajores, fuji,
    goerli, kovan, mumbai, rinkarby, rinkeby, ropsten) has a non-negative
    number of confirmations, and its overrides set no field other than the
    fee fields [gasPrice] and [gasLimit]. *)
Theorem configs_confirmations_and_fee_fields :
  Testnets.configs.*1
  = [Testnets.Alfajores; Testnets.Fuji; Testnets.Goerli; Testnets.Kovan;
     Testnets.Mumbai; Testnets.Rinkarby; Testnets.Rinkeby; Testnets.Ropsten] ∧
  Forall (fun e => (0 ≤ Testnets.confirmations e.2)%Z ∧
                   dom (Testnets.overrides e.2) ⊆ Testnets.fee_fields)
         Testnets.configs.
Proof.
  split; [reflexivity|].
  unfold Testnets.configs, Testnets._configs, Testnets.fee_fields.
  unfold Testnets.alfajores, Testnets.fuji, Testnets.goerli, Testnets.kovan,
    Testnets.mumbai, Testnets.rinkarby, Testnets.rinkeby, Testnets.ropsten.
  repeat (apply Forall_cons; split;
          [simpl; split;
           [lia
           |rewrite ?dom_insert_L, ?dom_singleton_L, ?dom_empty_L; set_solver]
          |]).
  by apply Forall_nil.
Qed.

(** ** Records *)
Section RecordFacts.
Context `{Ethers}.
Implicit Types (this : DomainConnection).

(** C3. [getConnection] returns the signer whenever one is registered,
    whether or not a provider is present too; the provider when no signer
    is present but a provider is; and nothing when neither is present. *)
Theorem getConnection_prefers_signer this :
  (∀ s, signer this = Some s → getConnection this = Some (inl s)) ∧
  (∀ p, signer this = None → provider this = Some p →
        getConnection this = Some (inr p)) ∧
  (signer this = None → provider this = None → getConnection this = None).
Proof.
  unfold getConnection. split; [|split].
  - intros s ->. done.
  - intros p -> ->. done.
  - intros -> ->. done.
Qed.

(** Neither registration touches the stored counterpart, and a signer is
    stored as the very object it was given. *)
Lemma registerProvider_signer provider' this :
  signer (registerProvider provider' this).2 = signer this.
Proof.
  unfold registerProvider.
  destruct (signer this) as [s|] eqn:Hs; [|done].
  destruct (Signer_connect s provider'); done.
Qed.

Lemma registerSigner_provider signer' this :
  provider (registerSigner signer' this).2 = provider this.
Proof.
  unfold registerSigner.
  destruct (provider this) as [p|] eqn:Hp; [|done].
  destruct (Signer_connect signer' p); done.
Qed.

Lemma registerSigner_signer signer' this :
  (registerSigner signer' this).1 = Normal tt →
  signer (registerSigner signer' this).2 = Some signer'.
Proof.
  unfold registerSigner.
  destruct (provider this) as [p|]; [|done].
  destruct (Signer_connect signer' p); done.
Qed.

Lemma registerProvider_provider provider' this :
  (registerProvider provider' this).1 = Normal tt →
  provider (registerProvider provider' this).2 = Some provider'.
Proof.
  unfold registerProvider.
  destruct (signer this) as [s|]; [|done].
  destruct (Signer_connect s provider'); done.
Qed.

(** When no [connect] throws, the two registration orders end in the same
    record: the given provider next to the given, unchanged, signer. *)
Lemma register_order_same_record provider' signer' this :
  provider this = None → signer this = None →
  (∀ e, Signer_connect signer' provider' ≠ Throw e) →
  (registerSigner signer' (registerProvider provider' this).2).2
  = (registerProvider provider' (registerSigner signer' this).2).2.
Proof.
  intros Hp Hs Hconn. unfold registerSigner, registerProvider.
  rewrite Hp, Hs; simpl.
  destruct (Signer_connect signer' provider') as [s|e] eqn:Hc.
  - done.
  - by destruct (Hconn e).
Qed.

End RecordFacts.

(** ** The registry after construction *)
Section RegistryFacts.
Context `{Ethers}.
Context {ChainName : Type} `{EqDecision ChainName}.
Implicit Types (σ : Store) (params obj : list (ChainName * IDomainConnection)).
Implicit Types (this : MultiProvider (ChainName := ChainName)).
Implicit Types (network : ChainName) (chains arr : list ChainName).
Implicit Types
  (networks : list ChainName + list (ChainName * IDomainConnection)).

(** The parameters the constructor maps over. *)
Lemma constructor_params networks σ :
  ∃ params,
    params.*1 = identifiers networks ∧
    (∀ arr, networks = inl arr → Forall (fun kv => kv.2 = empty_object) params) ∧
    (∀ obj, networks = inr obj → params = obj) ∧
    chainMap (MultiProvider_constructor networks σ).1
    = Object_fromEntries (providerEntries params σ).1 ∧
    (MultiProvider_constructor networks σ).2 = (providerEntries params σ).2.
Proof.
  eexists. split; [|split; [|split; [|split]]];
    [| | |apply constructor_chainMap|apply constructor_store].
  - destruct networks as [arr|obj]; simpl; [|done].
    rewrite <- list_fmap_compose. apply list_fmap_id.
  - intros arr ->. apply Forall_fmap, Forall_true. done.
  - by intros obj ->.
Qed.

(** With pairwise distinct identifiers no entry overwrites another: the
    i-th parameter becomes the i-th entry and gets the i-th new object. *)
Lemma constructor_distinct networks σ :
  NoDup (identifiers networks) →
  ∃ params,
    params.*1 = identifiers networks ∧
    (∀ arr, networks = inl arr → Forall (fun kv => kv.2 = empty_object) params) ∧
    (∀ obj, networks = inr obj → params = obj) ∧
    (chainMap (MultiProvider_constructor networks σ).1).*1
    = identifiers networks ∧
    ∀ i network v,
      params !! i = Some (network, v) →
      chainMap (MultiProvider_constructor networks σ).1 !! i
      = Some (network, (length σ + i)%nat) ∧
      (MultiProvider_constructor networks σ).2 !! (length σ + i)%nat
      = Some (DomainConnection_constructor v).
Proof.
  intros Hnd.
  destruct (constructor_params networks σ) as (params & Hk & Harr & Hobj & Hm & Hs).
  exists params. split; [done|]. split; [done|]. split; [done|].
  assert (chainMap (MultiProvider_constructor networks σ).1
          = (providerEntries params σ).1) as Hm'.
  { rewrite Hm. unfold Object_fromEntries. rewrite set_all_fresh; [done|].
    simpl. by rewrite providerEntries_keys, Hk. }
  split.
  - by rewrite Hm', providerEntries_keys.
  - intros i network v Hi. rewrite Hm', Hs.
    by apply providerEntries_lookup.
Qed.

(** C4. Built from a list of N pairwise distinct identifiers, the registry
    holds exactly N records, one per identifier and in the order of the
    list, all of them distinct objects with no provider, no signer, the
    empty overrides mapping and 0 confirmations. *)
Theorem constructor_from_list arr σ this σ' :
  NoDup arr →
  MultiProvider_constructor (inl arr) σ = (this, σ') →
  length (MultiGeneric_values this) = length arr ∧
  (MultiGeneric_entries this).*1 = arr ∧
  NoDup (MultiGeneric_values this) ∧
  Forall (fun r => σ' !! r = Some {| provider := None; signer := None;
                                     overrides := ∅; confirmations := 0 |})
         (MultiGeneric_values this).
Proof.
  intros Hnd Hctor.
  pose proof (constructor_well_formed (inl arr) σ) as (_ & Hrefs & _).
  destruct (constructor_distinct (inl arr) σ Hnd)
    as (params & Hk & Harr & _ & Hkeys & Hlook).
  rewrite Hctor in *; simpl in *.
  unfold MultiGeneric_values, MultiGeneric_entries, Object_values,
    Object_entries.
  split; [|split; [done|split; [done|]]].
  - rewrite <- Hkeys. by rewrite !length_fmap.
  - apply Forall_forall. intros r Hr.
    apply list_elem_of_fmap in Hr as ([network r'] & -> & Hin); simpl.
    apply list_elem_of_lookup in Hin as [i Hi].
    assert (is_Some (params !! i)) as [[network' v] Hp].
    { apply lookup_lt_is_Some. apply lookup_lt_Some in Hi.
      rewrite <- (length_fmap fst) in Hi. rewrite Hkeys, <- Hk in Hi.
      by rewrite length_fmap in Hi. }
    destruct (Hlook i network' v Hp) as [He Hs].
    rewrite Hi in He. injection He as -> ->. rewrite Hs.
    specialize (Harr arr eq_refl).
    rewrite Forall_forall in Harr.
    assert ((network', v).2 = empty_object) as Hv.
    { apply Harr. apply list_elem_of_lookup. eauto. }
    simpl in Hv. by rewrite Hv.
Qed.

(** C5. Built from a mapping, the registry holds one record per entry of
    the mapping, in the order of its entries; each record keeps every
    supplied field and defaults every absent one (no provider, no signer,
    the empty overrides mapping, 0 confirmations), so an entry that supplies
    nothing gets the record list construction gives. *)
Theorem constructor_from_mapping obj σ this σ' :
  NoDup obj.*1 →
  MultiProvider_constructor (inr obj) σ = (this, σ') →
  (MultiGeneric_entries this).*1 = obj.*1 ∧
  NoDup (MultiGeneric_values this) ∧
  ∀ i network v,
    obj !! i = Some (network, v) →
    ∃ r dc,
      MultiGeneric_entries this !! i = Some (network, r) ∧
      σ' !! r = Some dc ∧
      provider dc = idc_provider v ∧
      signer dc = idc_signer v ∧
      overrides dc = match idc_overrides v with Some o => o | None => ∅ end ∧
      confirmations dc
      = match idc_confirmations v with Some n => n | None => 0%Z end ∧
      (v = empty_object →
       dc = {| provider := None; signer := None;
               overrides := ∅; confirmations := 0 |}).
Proof.
  intros Hnd Hctor.
  pose proof (constructor_well_formed (inr obj) σ) as (_ & Hrefs & _).
  destruct (constructor_distinct (inr obj) σ Hnd)
    as (params & Hk & _ & Hobj & Hkeys & Hlook).
  rewrite (Hobj obj eq_refl) in *. clear Hobj.
  rewrite Hctor in *; simpl in *.
  unfold MultiGeneric_values, MultiGeneric_entries, Object_values,
    Object_entries.
  split; [done|]. split; [done|].
  intros i network v Hi. destruct (Hlook i network v Hi) as [He Hs].
  eexists _, _. split; [exact He|]. split; [exact Hs|].
  destruct v as [p s [o|] [n|]]; simpl; repeat split; try done.
  all: by intros [= -> ->].
Qed.

Lemma obj_get_app {V : Type} network (o1 o2 : list (ChainName * V)) :
  obj_get network (o1 ++ o2)
  = match obj_get network o1 with
    | Some v => Some v
    | None => obj_get network o2
    end.
Proof.
  induction o1 as [|[k v] o1 IH]; simpl; [done|].
  destruct (decide (network = k)); [done | exact IH].
Qed.

(** Read backwards, a list of entries yields the last entry of a key. *)
Lemma obj_get_reverse_last {V : Type} (es : list (ChainName * V)) i network v :
  es !! i = Some (network, v) →
  network ∉ (drop (S i) es).*1 →
  obj_get network (reverse es) = Some v.
Proof.
  intros Hi Hlast. rewrite <- (take_drop_middle es i _ Hi).
  rewrite reverse_app, reverse_cons, <- app_assoc, obj_get_app.
  assert (obj_get network (reverse (drop (S i) es)) = None) as ->.
  { apply obj_get_None. rewrite fmap_reverse, elem_of_reverse. exact Hlast. }
  simpl. by rewrite decide_True.
Qed.

Lemma constructor_keys networks σ network :
  network ∈ (chainMap (MultiProvider_constructor networks σ).1).*1
  ↔ network ∈ identifiers networks.
Proof.
  destruct (constructor_params networks σ) as (params & Hk & _ & _ & Hm & _).
  rewrite Hm. unfold Object_fromEntries.
  rewrite set_all_elem_keys, providerEntries_keys, Hk; simpl.
  rewrite elem_of_nil. tauto.
Qed.

(** Every object the constructor allocates for the array form is the
    all-default record. *)
Lemma constructor_list_record arr σ r :
  (length σ ≤ r < length σ + length arr)%nat →
  (MultiProvider_constructor (inl arr) σ).2 !! r
  = Some {| provider := None; signer := None;
            overrides := ∅; confirmations := 0 |}.
Proof.
  intros Hr.
  destruct (constructor_params (inl arr) σ)
    as (params & Hk & Harr & _ & _ & Hs).
  simpl in Hk. specialize (Harr arr eq_refl). rewrite Forall_forall in Harr.
  assert (is_Some (params !! (r - length σ)%nat)) as [[network v] Hp].
  { apply lookup_lt_is_Some. rewrite <- (length_fmap fst), Hk. lia. }
  destruct (providerEntries_lookup params σ _ network v Hp) as [_ Hrec].
  replace (length σ + (r - length σ))%nat with r in Hrec by lia.
  rewrite Hs, Hrec.
  assert ((network, v).2 = empty_object) as Hv.
  { apply Harr. apply list_elem_of_lookup. eauto. }
  simpl in Hv. by rewrite Hv.
Qed.

(** C10. Construction from a list with repeated identifiers returns all the
    same; the registry then has exactly one record per distinct identifier,
    its keys being the distinct identifiers of the list, each key holding an
    object of its own in the returned store, all-default like every record
    of list construction; and the record of an identifier is the object
    created for its last occurrence (a later entry overwrites an earlier
    one). *)
Theorem constructor_duplicate_identifiers arr σ :
  ∃ this σ',
    MultiProvider_constructor (inl arr) σ = (this, σ') ∧
    NoDup (Object_keys (chainMap this)) ∧
    (∀ network, network ∈ Object_keys (chainMap this) ↔ network ∈ arr) ∧
    Object_keys (chainMap this) ≡ₚ remove_dups arr ∧
    length (MultiGeneric_values this) = length (remove_dups arr) ∧
    NoDup (MultiGeneric_values this) ∧
    Forall (fun r => σ' !! r = Some {| provider := None; signer := None;
                                       overrides := ∅; confirmations := 0 |})
           (MultiGeneric_values this) ∧
    (∀ i network,
       arr !! i = Some network →
       network ∉ drop (S i) arr →
       getDomainConnection this network = Normal (length σ + i)%nat ∧
       σ' !! (length σ + i)%nat
       = Some {| provider := None; signer := None;
                 overrides := ∅; confirmations := 0 |}).
Proof.
  destruct (MultiProvider_constructor (inl arr) σ) as [this σ'] eqn:Hctor.
  exists this, σ'. split; [done|].
  pose proof (constructor_well_formed (inl arr) σ) as (Hnd & Hrefs & _).
  pose proof (constructor_keys (inl arr) σ) as Hkeys.
  pose proof (constructor_list_record arr σ) as Hrecord.
  destruct (constructor_params (inl arr) σ) as (params & Hk & _ & _ & Hm & _).
  rewrite Hctor in *; simpl in *. unfold Object_keys.
  assert ((chainMap this).*1 ≡ₚ remove_dups arr) as Hperm.
  { apply NoDup_Permutation; [done | apply NoDup_remove_dups |].
    intros network. by rewrite Hkeys, elem_of_remove_dups. }
  split; [done|]. split; [done|]. split; [done|].
  unfold MultiGeneric_values, Object_values.
  split; [|split; [done|split]].
  - rewrite <- Hperm. by rewrite !length_fmap.
  - apply Forall_forall. intros r Hr. apply Hrecord.
    rewrite Hm in Hr. unfold Object_fromEntries in Hr.
    apply set_all_elem_values in Hr as [Hr|Hr]; [by apply elem_of_nil in Hr|].
    rewrite providerEntries_refs in Hr. apply elem_of_seq in Hr.
    rewrite <- Hk, length_fmap. lia.
  - intros i network Hi Hlast. split.
    + unfold getDomainConnection, MultiGeneric_get.
      rewrite Hm. unfold Object_fromEntries. rewrite set_all_get.
      assert (is_Some (params !! i)) as [[network' v] Hp].
      { apply lookup_lt_is_Some. apply lookup_lt_Some in Hi.
        rewrite <- Hk in Hi. by rewrite length_fmap in Hi. }
      assert (network' = network) as ->.
      { pose proof (list_lookup_fmap fst params i) as Hf.
        rewrite Hp, Hk, Hi in Hf. simpl in Hf. congruence. }
      destruct (providerEntries_lookup params σ i network v Hp) as [He _].
      rewrite (obj_get_reverse_last _ i network (length σ + i)%nat);
        [done|done|].
      rewrite fmap_drop, providerEntries_keys, Hk. exact Hlast.
    + apply Hrecord. apply lookup_lt_Some in Hi. lia.
Qed.

(** C8. [get(network)] returns the record of [network] when the identifier
    was part of construction, and fails with a lookup error when it was
    not. *)
Theorem getDomainConnection_lookup networks σ this σ' network :
  MultiProvider_constructor networks σ = (this, σ') →
  (network ∈ identifiers networks →
   ∃ r dc,
     getDomainConnection this network = Normal r ∧
     (network, r) ∈ MultiGeneric_entries this ∧
     σ' !! r = Some dc) ∧
  (network ∉ identifiers networks →
   getDomainConnection this network = Throw LookupError).
Proof.
  intros Hctor.
  pose proof (constructor_well_formed networks σ) as (_ & _ & Halloc).
  pose proof (constructor_keys networks σ network) as Hkeys.
  rewrite Hctor in *; simpl in *.
  unfold getDomainConnection, MultiGeneric_get, MultiGeneric_entries,
    Object_entries.
  split; intros Hin.
  - destruct (obj_get network (chainMap this)) as [r|] eqn:Hg.
    + apply obj_get_Some_elem in Hg.
      rewrite Forall_forall in Halloc.
      assert (r < length σ')%nat as Hr.
      { apply Halloc. by apply (list_elem_of_fmap_2 snd) in Hg. }
      apply lookup_lt_is_Some in Hr as [dc Hdc]. eauto.
    + apply obj_get_None in Hg. tauto.
  - assert (obj_get network (chainMap this) = None) as ->; [|done].
    apply obj_get_None. tauto.
Qed.

Lemma getChains_keys this chains :
  (getChains this chains).*1
  = filter (fun network => network ∈ chains) (chainMap this).*1.
Proof.
  unfold getChains, MultiGeneric_entries, Object_entries.
  induction (chainMap this) as [|[k r] o IH]; [done|].
  rewrite fmap_cons, !filter_cons. cbn [fst].
  destruct (decide (k ∈ chains)); rewrite ?fmap_cons, IH; done.
Qed.

(** C6. [getChains(chains)] returns exactly the (identifier, record) pairs
    of the registry whose identifier occurs in [chains], in registry
    iteration order, which is the order of insertion at construction; an
    identifier of [chains] that was never configured contributes nothing,
    and no query makes the call fail. *)
Theorem getChains_selects this chains :
  sublist (getChains this chains) (MultiGeneric_entries this) ∧
  (∀ e, e ∈ getChains this chains
        ↔ e ∈ MultiGeneric_entries this ∧ e.1 ∈ chains) ∧
  (∀ network,
     network ∈ chains →
     network ∉ (MultiGeneric_entries this).*1 →
     network ∉ (getChains this chains).*1) ∧
  (∀ networks σ,
     NoDup (identifiers networks) →
     (getChains (MultiProvider_constructor networks σ).1 chains).*1
     = filter (fun network => network ∈ chains) (identifiers networks)).
Proof.
  unfold getChains. split; [|split; [|split]].
  - apply sublist_filter.
  - intros e. rewrite list_elem_of_filter. tauto.
  - intros network _ Hnot Hin. apply Hnot.
    apply list_elem_of_fmap in Hin as (e & -> & He).
    apply list_elem_of_filter in He as [_ He].
    by apply (list_elem_of_fmap_2 fst) in He.
  - intros networks σ Hnd.
    destruct (constructor_distinct networks σ Hnd)
      as (params & _ & _ & _ & Hkeys & _).
    fold (getChains (MultiProvider_constructor networks σ).1 chains).
    by rewrite getChains_keys, Hkeys.
Qed.

(** Distinct networks hold distinct objects. *)
Lemma well_formed_distinct this σ network network' r r' :
  well_formed this σ →
  network' ≠ network →
  getDomainConnection this network = Normal r →
  getDomainConnection this network' = Normal r' →
  r' ≠ r.
Proof.
  intros (_ & Hrefs & _) Hne.
  unfold getDomainConnection, MultiGeneric_get.
  destruct (obj_get network (chainMap this)) as [r0|] eqn:Hg; [|done].
  destruct (obj_get network' (chainMap this)) as [r0'|] eqn:Hg'; [|done].
  intros [= ->] [= ->] ->.
  apply obj_get_Some_elem in Hg, Hg'.
  induction (chainMap this) as [|[k x] o IH]; [by apply elem_of_nil in Hg|].
  simpl in Hrefs. apply NoDup_cons in Hrefs as [Hx Hrefs].
  apply elem_of_cons in Hg as [Hg|Hg], Hg' as [Hg'|Hg'].
  - congruence.
  - injection Hg as -> ->. apply Hx.
    by apply (list_elem_of_fmap_2 snd) in Hg'.
  - injection Hg' as -> ->. apply Hx.
    by apply (list_elem_of_fmap_2 snd) in Hg.
  - by apply IH.
Qed.

Lemma well_formed_allocated this σ network r :
  well_formed this σ →
  getDomainConnection this network = Normal r →
  (r < length σ)%nat.
Proof.
  intros (_ & _ & Halloc).
  unfold getDomainConnection, MultiGeneric_get.
  destruct (obj_get network (chainMap this)) as [r0|] eqn:Hg; [|done].
  intros [= ->]. apply obj_get_Some_elem in Hg.
  rewrite Forall_forall in Halloc. apply Halloc.
  by apply (list_elem_of_fmap_2 snd) in Hg.
Qed.

(** A method call changes the object it is invoked on and nothing else. *)
Lemma invoke_spec {A : Type} r (m : DomainConnection → A * DomainConnection)
    σ dc :
  σ !! r = Some dc →
  invoke r m σ = Some ((m dc).1, <[r := (m dc).2]> σ) ∧
  <[r := (m dc).2]> σ !! r = Some (m dc).2 ∧
  length (<[r := (m dc).2]> σ) = length σ ∧
  ∀ r', r' ≠ r → <[r := (m dc).2]> σ !! r' = σ !! r'.
Proof.
  intros Hdc. unfold invoke. rewrite Hdc. destruct (m dc) as [a dc']; simpl.
  split; [done|]. split; [|split].
  - apply list_lookup_insert_eq. by apply lookup_lt_Some in Hdc.
  - apply length_insert.
  - intros r' Hne. by apply list_lookup_insert_ne.
Qed.

(** C7. [registerOverrides] and [registerConfirmations], called on the
    record of a network, replace that one field by the given value whatever
    it was before, and leave the other fields of the record and the records
    of all other networks as they were. *)
Theorem register_replaces_field this σ network r :
  well_formed this σ →
  getDomainConnection this network = Normal r →
  ∃ dc,
    σ !! r = Some dc ∧
    (∀ n, ∃ σ',
       invoke r (registerConfirmations n) σ = Some (n, σ') ∧
       σ' !! r = Some {| provider := provider dc; signer := signer dc;
                         overrides := overrides dc; confirmations := n |} ∧
       well_formed this σ' ∧
       ∀ network' r',
         network' ≠ network →
         getDomainConnection this network' = Normal r' →
         σ' !! r' = σ !! r') ∧
    (∀ o, ∃ σ',
       invoke r (registerOverrides o) σ = Some (o, σ') ∧
       σ' !! r = Some {| provider := provider dc; signer := signer dc;
                         overrides := o; confirmations := confirmations dc |} ∧
       well_formed this σ' ∧
       ∀ network' r',
         network' ≠ network →
         getDomainConnection this network' = Normal r' →
         σ' !! r' = σ !! r').
Proof.
  intros Hwf Hget.
  pose proof (well_formed_allocated _ _ _ _ Hwf Hget) as Hr.
  apply lookup_lt_is_Some in Hr as [dc Hdc].
  exists dc. split; [done|]. split.
  - intros n.
    destruct (invoke_spec r (registerConfirmations n) σ dc Hdc)
      as (Hinv & Hnew & Hlen & Hframe).
    eexists. split; [exact Hinv|]. split; [exact Hnew|]. split.
    + destruct Hwf as (? & ? & ?). unfold well_formed. by rewrite Hlen.
    + intros network' r' Hne Hget'. apply Hframe.
      by apply (well_formed_distinct this σ network network').
  - intros o.
    destruct (invoke_spec r (registerOverrides o) σ dc Hdc)
      as (Hinv & Hnew & Hlen & Hframe).
    eexists. split; [exact Hinv|]. split; [exact Hnew|]. split.
    + destruct Hwf as (? & ? & ?). unfold well_formed. by rewrite Hlen.
    + intros network' r' Hne Hget'. apply Hframe.
      by apply (well_formed_distinct this σ network network').
Qed.

End RegistryFacts.

(** ** [Promise.all] *)
Section PromiseFacts.
Context {A : Type}.
Implicit Types (ps : list (Promise A)) (p : Promise A).

Lemma first_rejection_None ps :
  first_rejection ps = None ↔ Forall (fun p => ¬ rejects p) ps.
Proof.
  induction ps as [|p ps IH]; simpl.
  - split; [intros _; by apply Forall_nil | done].
  - rewrite Forall_cons, <- IH. unfold rejects.
    destruct p as [[t [v|e]]|]; destruct (first_rejection ps) as [[t' e']|].
    all: try (split; [done | intros [_ ?]; done]).
    all: try (split; [intros _; split; [intros (? & ? & ?); done | done] | done]).
    + destruct (decide (t' < t)); (split; [done | intros [_ ?]; done]).
    + split; [done|]. intros [Hn _]. destruct Hn; eauto.
Qed.

(** The rejection [Promise.all] reports is one of the inputs', and none of
    the inputs rejects before it. *)
Lemma first_rejection_Some ps t e :
  first_rejection ps = Some (t, e) →
  Some (t, Rejected e) ∈ ps ∧
  ∀ t' e', Some (t', Rejected e') ∈ ps → t ≤ t'.
Proof.
  revert t e. induction ps as [|p ps IH]; intros t e; simpl; [done|].
  destruct (first_rejection ps) as [[t0 e0]|] eqn:Hr.
  - destruct (IH t0 e0 eq_refl) as [Hin Hmin].
    destruct p as [[tp [v|ep]]|].
    + intros [= -> ->]. split; [by apply list_elem_of_further|].
      intros t' e' Hin'. apply elem_of_cons in Hin' as [?|?]; [done|eauto].
    + destruct (decide (t0 < tp)).
      * intros [= -> ->]. split; [by apply list_elem_of_further|].
        intros t' e' Hin'. apply elem_of_cons in Hin' as [[= -> ->]|?];
          [lia | eauto].
      * intros [= -> ->]. split; [apply list_elem_of_here|].
        intros t' e' Hin'. apply elem_of_cons in Hin' as [[= -> ->]|Hin'];
          [lia|]. specialize (Hmin t' e' Hin'). lia.
    + intros [= -> ->]. split; [by apply list_elem_of_further|].
      intros t' e' Hin'. apply elem_of_cons in Hin' as [?|?]; [done|eauto].
  - apply first_rejection_None in Hr. rewrite Forall_forall in Hr.
    destruct p as [[tp [v|ep]]|]; try done.
    intros [= -> ->]. split; [apply list_elem_of_here|].
    intros t' e' Hin'. apply elem_of_cons in Hin' as [[= -> ->]|Hin'];
      [lia|]. destruct (Hr _ Hin'). unfold rejects. eauto.
Qed.

Lemma all_fulfilled_is_Some ps :
  is_Some (all_fulfilled ps) ↔ Forall fulfils ps.
Proof.
  induction ps as [|p ps IH]; simpl.
  - split; [intros _; by apply Forall_nil | eauto].
  - rewrite Forall_cons, <- IH. unfold fulfils.
    destruct p as [[t [v|e]]|].
    + destruct (all_fulfilled ps) as [[t' vs]|].
      * split; [intros _; split; eauto | eauto].
      * split; [intros []; done | intros [_ []]; done].
    + split; [intros []; done | intros [(? & ? & ?) _]; done].
    + split; [intros []; done | intros [(? & ? & ?) _]; done].
Qed.

Lemma all_fulfilled_length ps t vs :
  all_fulfilled ps = Some (t, vs) → length vs = length ps.
Proof.
  revert t vs. induction ps as [|p ps IH]; intros t vs; simpl.
  - by intros [= <- <-].
  - destruct p as [[tp [v|e]]|]; try done.
    destruct (all_fulfilled ps) as [[t' vs']|]; [|done].
    intros [= <- <-]. simpl. f_equal. by apply (IH t').
Qed.

(** [Promise.all] fulfils exactly when every input fulfils. *)
Lemma Promise_all_fulfils ps :
  (∃ t vs, Promise_all ps = Some (t, Fulfilled vs) ∧ length vs = length ps)
  ↔ Forall fulfils ps.
Proof.
  unfold Promise_all. split.
  - intros (t & vs & Hall & _).
    destruct (first_rejection ps) as [[t' e']|]; [done|].
    apply all_fulfilled_is_Some.
    destruct (all_fulfilled ps) as [[t' vs']|]; [eauto | done].
  - intros Hall.
    assert (first_rejection ps = None) as ->.
    { apply first_rejection_None. eapply Forall_impl; [exact Hall|].
      intros p (t & v & ->) (t' & e' & ?). done. }
    apply all_fulfilled_is_Some in Hall as [[t vs] Hf]. rewrite Hf.
    apply all_fulfilled_length in Hf. eauto.
Qed.

(** [Promise.all] rejects as soon as some input rejects, with the reason
    of an input that rejects first. *)
Lemma Promise_all_rejects ps :
  Exists rejects ps →
  ∃ t e,
    Promise_all ps = Some (t, Rejected e) ∧
    Some (t, Rejected e) ∈ ps ∧
    ∀ t' e', Some (t', Rejected e') ∈ ps → t ≤ t'.
Proof.
  intros Hex. unfold Promise_all.
  destruct (first_rejection ps) as [[t e]|] eqn:Hr.
  - exists t, e. split; [done|]. by apply first_rejection_Some.
  - apply first_rejection_None in Hr.
    apply Exists_exists in Hex as (p & Hin & Hp).
    rewrite Forall_forall in Hr. by destruct (Hr p Hin).
Qed.

End PromiseFacts.

(** ** Readiness of the registry *)
Section ReadyFacts.
Context `{Ethers}.
Context {ChainName : Type} `{EqDecision ChainName}.
Implicit Types (σ : Store) (dcs : list DomainConnection).
Implicit Types (this : MultiProvider (ChainName := ChainName)).

Lemma well_formed_records this σ :
  well_formed this σ → ∃ dcs, records this σ = Some dcs.
Proof.
  intros (_ & _ & Halloc). apply mapM_is_Some.
  eapply Forall_impl; [exact Halloc|].
  intros r Hr. by apply lookup_lt_is_Some.
Qed.

(** The callback throws at the first record without a provider. *)
Lemma provider_ready_throws dcs :
  Exists (fun dc => provider dc = None) dcs →
  Array_map_throwing provider_ready dcs = Throw TypeError.
Proof.
  induction dcs as [|dc dcs IH]; intros Hex; [by apply Exists_nil in Hex|].
  simpl. unfold provider_ready at 1.
  destruct (provider dc) as [p|] eqn:Hp; [|done].
  apply Exists_cons in Hex as [Hex|Hex]; [simpl in Hex; congruence|].
  by rewrite IH.
Qed.

Lemma provider_ready_normal dcs ps :
  Array_map_throwing provider_ready dcs = Normal ps
  ↔ Forall2 (fun dc p => ∃ pr, provider dc = Some pr ∧ Provider_ready pr = p)
            dcs ps.
Proof.
  revert ps. induction dcs as [|dc dcs IH]; intros ps; simpl.
  - split; [intros [= <-]; constructor | by inversion 1].
  - unfold provider_ready at 1. destruct (provider dc) as [p|] eqn:Hp.
    + destruct (Array_map_throwing provider_ready dcs) as [ps'|e] eqn:Hmap.
      * split.
        -- intros [= <-]. constructor; [eauto | by apply IH].
        -- intros Hall. apply Forall2_cons_inv_l in Hall
             as (p' & ps'' & (pr & Hpr & <-) & Hrest & ->).
           apply IH in Hrest. congruence.
      * split; [done|]. intros Hall.
        apply Forall2_cons_inv_l in Hall as (p' & ps'' & _ & Hrest & ->).
        by apply IH in Hrest.
    + split; [done|]. intros Hall.
      apply Forall2_cons_inv_l in Hall as (p' & ps'' & (pr & ? & _) & _).
      congruence.
Qed.

Lemma provider_ready_total dcs :
  Forall (fun dc => is_Some (provider dc)) dcs →
  ∃ ps, Array_map_throwing provider_ready dcs = Normal ps.
Proof.
  induction 1 as [|dc dcs' [pr Hpr] _ [ps Hmap]].
  - by exists [].
  - exists (Provider_ready pr :: ps).
    simpl. unfold provider_ready at 1. by rewrite Hpr, Hmap.
Qed.

Lemma provider_ready_fulfils dcs ps :
  Array_map_throwing provider_ready dcs = Normal ps →
  Forall fulfils ps ↔ Forall check_succeeds dcs.
Proof.
  intros Hmap. apply provider_ready_normal in Hmap.
  induction Hmap as [|dc p dcs' ps' (pr & Hpr & <-) _ IH]; [done|].
  rewrite !Forall_cons, IH. unfold check_succeeds at 1.
  split; intros [Hp Hrest]; (split; [|done]).
  - by exists pr.
  - destruct Hp as (pr' & Hpr' & Hp). congruence.
Qed.

Lemma provider_ready_rejects dcs ps t e :
  Array_map_throwing provider_ready dcs = Normal ps →
  Some (t, Rejected e) ∈ ps ↔ Exists (check_fails t e) dcs.
Proof.
  intros Hmap. apply provider_ready_normal in Hmap.
  induction Hmap as [|dc p dcs' ps' (pr & Hpr & <-) _ IH].
  - rewrite elem_of_nil, Exists_nil. done.
  - rewrite elem_of_cons, Exists_cons, IH. unfold check_fails at 1.
    split; (intros [Hp|Hrest]; [left|by right]).
    + by exists pr.
    + destruct Hp as (pr' & Hpr' & Hp). congruence.
Qed.

(** C2. [ready()] resolves successfully when every record has a registered
    provider whose readiness check succeeds (and only then); it fails, by
    throwing, when some record's provider was never registered; and when
    every provider is registered but some readiness check fails it rejects
    with the failure of such a check, whatever the other checks do. *)
Theorem ready_all_or_nothing this σ :
  well_formed this σ →
  ∃ dcs,
    records this σ = Some dcs ∧
    ((∃ t ns, ready this σ = Some (Normal (Some (t, Fulfilled ns))))
     ↔ Forall check_succeeds dcs) ∧
    (Exists (fun dc => provider dc = None) dcs →
     ready this σ = Some (Throw TypeError)) ∧
    (Forall (fun dc => is_Some (provider dc)) dcs →
     Exists (fun dc => ∃ t e, check_fails t e dc) dcs →
     ∃ t e,
       ready this σ = Some (Normal (Some (t, Rejected e))) ∧
       Exists (check_fails t e) dcs).
Proof.
  intros Hwf. destruct (well_formed_records this σ Hwf) as [dcs Hdcs].
  exists dcs. split; [done|]. unfold ready. rewrite Hdcs. clear Hdcs.
  split; [|split].
  - split.
    + intros (t & ns & Hready).
      destruct (Array_map_throwing provider_ready dcs) as [ps|e] eqn:Hmap;
        [|done].
      apply (provider_ready_fulfils dcs ps Hmap).
      apply Promise_all_fulfils.
      injection Hready as Hall. unfold Promise_all in *.
      destruct (first_rejection ps) as [[? ?]|]; [done|].
      destruct (all_fulfilled ps) as [[t' vs]|] eqn:Hf; [|done].
      apply all_fulfilled_length in Hf. eauto.
    + intros Hall.
      destruct (provider_ready_total dcs) as [ps Hmap].
      { eapply Forall_impl; [exact Hall|]. intros dc (pr & -> & _). eauto. }
      rewrite Hmap. apply (provider_ready_fulfils dcs ps Hmap) in Hall.
      apply Promise_all_fulfils in Hall as (t & ns & -> & _). eauto.
  - intros Hex. by rewrite provider_ready_throws.
  - intros Hall Hex.
    destruct (provider_ready_total dcs Hall) as [ps Hmap]. rewrite Hmap.
    destruct (Promise_all_rejects ps) as (t & e & -> & Hin & _).
    { apply Exists_exists in Hex as (dc & Hdc & t & e & Hfail).
      apply Exists_exists. exists (Some (t, Rejected e)).
      split; [|by exists t, e].
      apply (provider_ready_rejects dcs ps t e Hmap).
      apply Exists_exists. eauto. }
    exists t, e. split; [done|].
    by apply (provider_ready_rejects dcs ps t e Hmap).
Qed.

End ReadyFacts.

(** ** The claims at sample inputs *)

Lemma getConnection_prefers_signer_witness :
  getConnection {| provider := Some alfajores_rpc; signer := Some deployer;
                   overrides := ∅; confirmations := 0 |}
  = Some (inl deployer) ∧
  getConnection {| provider := Some alfajores_rpc; signer := None;
                   overrides := ∅; confirmations := 0 |}
  = Some (inr alfajores_rpc) ∧
  getConnection (DomainConnection_constructor empty_object) = None.
Proof.
  split; [|split].
  - apply (proj1 (getConnection_prefers_signer _) deployer). reflexivity.
  - apply (proj1 (proj2 (getConnection_prefers_signer _)) alfajores_rpc);
      reflexivity.
  - apply (proj2 (proj2 (getConnection_prefers_signer _))); reflexivity.
Defined.

Lemma NoDup_alfajores_fuji : NoDup [Testnets.Alfajores; Testnets.Fuji].
Proof.
  apply NoDup_cons. split.
  - intros Hin. apply list_elem_of_singleton in Hin. discriminate Hin.
  - apply NoDup_singleton.
Defined.

Lemma constructor_from_list_witness :
  length (MultiGeneric_values two_testnets.1) = 2 ∧
  (MultiGeneric_entries two_testnets.1).*1
  = [Testnets.Alfajores; Testnets.Fuji] ∧
  NoDup (MultiGeneric_values two_testnets.1) ∧
  Forall (fun r => two_testnets.2 !! r
                   = Some {| provider := None; signer := None;
                             overrides := ∅; confirmations := 0 |})
         (MultiGeneric_values two_testnets.1).
Proof.
  apply (constructor_from_list [Testnets.Alfajores; Testnets.Fuji] []).
  - exact NoDup_alfajores_fuji.
  - reflexivity.
Defined.

Lemma constructor_from_mapping_witness :
  ∃ r dc,
    MultiGeneric_entries one_unregistered.1 !! 0 = Some (Testnets.Alfajores, r) ∧
    one_unregistered.2 !! r = Some dc ∧
    provider dc = Some alfajores_rpc ∧
    signer dc = None ∧
    overrides dc = ∅ ∧
    confirmations dc = 0%Z.
Proof.
  destruct (constructor_from_mapping
              [(Testnets.Alfajores, with_provider alfajores_rpc);
               (Testnets.Fuji, empty_object)] []
              one_unregistered.1 one_unregistered.2
              NoDup_alfajores_fuji eq_refl) as (_ & _ & Hrecord).
  destruct (Hrecord 0 Testnets.Alfajores (with_provider alfajores_rpc) eq_refl)
    as (r & dc & He & Hs & Hp & Hsig & Ho & Hc & _).
  exists r, dc. repeat split; assumption.
Defined.

Lemma constructor_duplicate_identifiers_witness :
  ∃ this σ',
    MultiProvider_constructor
      (inl [Testnets.Alfajores; Testnets.Fuji; Testnets.Alfajores]) []
    = (this, σ') ∧
    length (MultiGeneric_values this) = 2 ∧
    getDomainConnection this Testnets.Alfajores = Normal 2 ∧
    σ' !! 2 = Some {| provider := None; signer := None;
                      overrides := ∅; confirmations := 0 |} ∧
    getDomainConnection this Testnets.Fuji = Normal 1 ∧
    σ' !! 1 = Some {| provider := None; signer := None;
                      overrides := ∅; confirmations := 0 |}.
Proof.
  destruct (constructor_duplicate_identifiers
              [Testnets.Alfajores; Testnets.Fuji; Testnets.Alfajores]
              ([] : Store (H := ethers_v5)))
    as (this & σ' & Hctor & _ & _ & _ & Hlen & _ & _ & Hlast).
  exists this, σ'. split; [exact Hctor|]. split; [exact Hlen|].
  assert (Testnets.Alfajores ∉ drop 3
            [Testnets.Alfajores; Testnets.Fuji; Testnets.Alfajores]) as Ha.
  { simpl. apply not_elem_of_nil. }
  assert (Testnets.Fuji ∉ drop 2
            [Testnets.Alfajores; Testnets.Fuji; Testnets.Alfajores]) as Hf.
  { simpl. intros Hin. apply list_elem_of_singleton in Hin. discriminate Hin. }
  destruct (Hlast 2 Testnets.Alfajores eq_refl Ha) as [Hget2 Hrec2].
  destruct (Hlast 1 Testnets.Fuji eq_refl Hf) as [Hget1 Hrec1].
  split; [exact Hget2|]. split; [exact Hrec2|].
  split; [exact Hget1 | exact Hrec1].
Defined.

Lemma getDomainConnection_lookup_witness :
  (∃ r dc,
     getDomainConnection two_testnets.1 Testnets.Fuji = Normal r ∧
     (Testnets.Fuji, r) ∈ MultiGeneric_entries two_testnets.1 ∧
     two_testnets.2 !! r = Some dc) ∧
  getDomainConnection two_testnets.1 Testnets.Kovan = Throw LookupError.
Proof.
  split.
  - apply (getDomainConnection_lookup
             (inl [Testnets.Alfajores; Testnets.Fuji]) []
             two_testnets.1 two_testnets.2 Testnets.Fuji eq_refl).
    simpl. apply list_elem_of_further, list_elem_of_here.
  - apply (getDomainConnection_lookup
             (inl [Testnets.Alfajores; Testnets.Fuji]) []
             two_testnets.1 two_testnets.2 Testnets.Kovan eq_refl).
    simpl. intros Hin.
    apply elem_of_cons in Hin as [Hin|Hin]; [discriminate Hin|].
    apply list_elem_of_singleton in Hin. discriminate Hin.
Defined.

Lemma getChains_selects_witness :
  (getChains
     (MultiProvider_constructor
        (inl [Testnets.Alfajores; Testnets.Fuji; Testnets.Goerli])
        ([] : Store (H := ethers_v5))).1
     [Testnets.Goerli; Testnets.Kovan; Testnets.Alfajores]).*1
  = [Testnets.Alfajores; Testnets.Goerli].
Proof.
  etrans.
  - apply (proj2 (proj2 (proj2 (getChains_selects
             (MultiProvider_constructor (inl []) ([] : Store (H := ethers_v5))).1
             [Testnets.Goerli; Testnets.Kovan; Testnets.Alfajores])))
             (inl [Testnets.Alfajores; Testnets.Fuji; Testnets.Goerli]) []).
    simpl. apply NoDup_cons. split.
    + intros Hin.
      apply elem_of_cons in Hin as [Hin|Hin]; [discriminate Hin|].
      apply list_elem_of_singleton in Hin. discriminate Hin.
    + apply NoDup_cons. split; [|apply NoDup_singleton].
      intros Hin. apply list_elem_of_singleton in Hin. discriminate Hin.
  - reflexivity.
Defined.

(** The example of the specification: after
    [registerConfirmations("alfajores", 5)] on a registry built from
    [["alfajores", "fuji"]], alfajores has 5 confirmations and fuji still
    has 0. *)
Lemma register_replaces_field_witness :
  ∃ σ' alfajores fuji,
    invoke 0 (registerConfirmations 5) two_testnets.2 = Some (5%Z, σ') ∧
    getDomainConnection two_testnets.1 Testnets.Alfajores = Normal 0 ∧
    σ' !! 0 = Some alfajores ∧ confirmations alfajores = 5%Z ∧
    getDomainConnection two_testnets.1 Testnets.Fuji = Normal 1 ∧
    σ' !! 1 = Some fuji ∧ confirmations fuji = 0%Z.
Proof.
  assert (getDomainConnection two_testnets.1 Testnets.Alfajores = Normal 0)
    as Hget by reflexivity.
  destruct (register_replaces_field two_testnets.1 two_testnets.2
              Testnets.Alfajores 0
              (constructor_well_formed
                 (inl [Testnets.Alfajores; Testnets.Fuji]) [])
              Hget) as (dc & Hdc & Hconf & _).
  destruct (Hconf 5%Z) as (σ' & Hinv & Hnew & _ & Hframe).
  exists σ'. eexists _, _.
  split; [exact Hinv|]. split; [reflexivity|]. split; [exact Hnew|].
  split; [reflexivity|]. split; [reflexivity|]. split.
  - rewrite (Hframe Testnets.Fuji 1); [reflexivity | discriminate | reflexivity].
  - reflexivity.
Defined.

Example ready_two_reachable :
  ready two_reachable.1 two_reachable.2
  = Some (Normal (Some (4, Fulfilled [44787%Z; 43113%Z]))).
Proof. reflexivity. Qed.

Example ready_one_unreachable :
  ready one_unreachable.1 one_unreachable.2
  = Some (Normal (Some (3, Rejected (LibraryError "NETWORK_ERROR")))).
Proof. reflexivity. Qed.

Lemma ready_all_or_nothing_witness :
  (∃ t ns, ready two_reachable.1 two_reachable.2
           = Some (Normal (Some (t, Fulfilled ns)))) ∧
  ready one_unregistered.1 one_unregistered.2 = Some (Throw TypeError) ∧
  (∃ t e, ready one_unreachable.1 one_unreachable.2
          = Some (Normal (Some (t, Rejected e)))).
Proof.
  split; [|split].
  - destruct (ready_all_or_nothing two_reachable.1 two_reachable.2
                (constructor_well_formed _ _))
      as (dcs & Hdcs & Hall & _).
    apply Hall. vm_compute in Hdcs. injection Hdcs as <-.
    apply Forall_cons. split; [|apply Forall_cons; split; [|apply Forall_nil; exact I]].
    + exists alfajores_rpc. split; [reflexivity|]. eexists _, _. reflexivity.
    + exists fuji_rpc. split; [reflexivity|]. eexists _, _. reflexivity.
  - destruct (ready_all_or_nothing one_unregistered.1 one_unregistered.2
                (constructor_well_formed _ _))
      as (dcs & Hdcs & _ & Hthrow & _).
    apply Hthrow. vm_compute in Hdcs. injection Hdcs as <-.
    apply Exists_cons_tl, Exists_cons_hd. reflexivity.
  - destruct (ready_all_or_nothing one_unreachable.1 one_unreachable.2
                (constructor_well_formed _ _))
      as (dcs & Hdcs & _ & _ & Hreject).
    vm_compute in Hdcs. injection Hdcs as <-.
    destruct Hreject as (t & e & Hready & _).
    + apply Forall_cons. split; [eexists; reflexivity|].
      apply Forall_cons. split; [eexists; reflexivity|].
      apply Forall_nil. exact I.
    + apply Exists_cons_tl, Exists_cons_hd.
      exists 3, (LibraryError "NETWORK_ERROR"), unreachable_rpc.
      split; reflexivity.
    + exists t, e. exact Hready.
Defined.

(** ** Registration of providers and signers *)

(** C1 (where the code departs from it).  A wallet is registered on a
    record that holds a provider, and a provider on a record that holds a
    wallet.  In both orders the record ends up holding both handles, yet
    the stored wallet is the one that was passed in, still without a
    provider: the connected wallet [connect] returned was dropped, so the
    stored signer is not associated with the stored provider. *)
Theorem register_leaves_signer_unconnected :
  let this := DomainConnection_constructor empty_object in
  let provider_first :=
    (registerSigner deployer (registerProvider alfajores_rpc this).2).2 in
  let signer_first :=
    (registerProvider alfajores_rpc (registerSigner deployer this).2).2 in
  provider provider_first = Some alfajores_rpc ∧
  signer provider_first = Some deployer ∧
  provider signer_first = Some alfajores_rpc ∧
  signer signer_first = Some deployer ∧
  Signer_provider deployer = None ∧
  Signer_connect deployer alfajores_rpc
  = Normal {| privateKey := privateKey deployer;
              wallet_provider := Some alfajores_rpc |}.
Proof. repeat split. Qed.

(** ** Further properties of the record methods *)
Section RecordMethodFacts.
Context `{EthersHandles}.
Implicit Types (this : DomainConnection).

(** X1. [registerProvider] is all-or-nothing: it throws exactly when the
    record holds a signer whose [connect] throws, and then the record is
    untouched; otherwise the provider is the given one.  Signer, overrides
    and confirmations are never changed. *)
Theorem registerProvider_atomic provider' this :
  signer (registerProvider provider' this).2 = signer this ∧
  overrides (registerProvider provider' this).2 = overrides this ∧
  confirmations (registerProvider provider' this).2 = confirmations this ∧
  (∀ e, (registerProvider provider' this).1 = Throw e
        ↔ ∃ s, signer this = Some s ∧ Signer_connect s provider' = Throw e) ∧
  match (registerProvider provider' this).1 with
  | Throw _ => (registerProvider provider' this).2 = this
  | Normal _ => provider (registerProvider provider' this).2 = Some provider'
  end.
Proof.
  unfold registerProvider.
  destruct (signer this) as [s|] eqn:Hs.
  - destruct (Signer_connect s provider') as [s'|e'] eqn:Hc; simpl.
    + repeat split; try done.
      intros (s0 & [= <-] & Hc'). congruence.
    + repeat split; try done.
      * intros [= ->]. eauto.
      * intros (s0 & [= <-] & Hc'). congruence.
  - simpl. repeat split; try done. by intros (s0 & ? & _).
Qed.

(** X2. [registerSigner] is all-or-nothing in the same way: it throws
    exactly when the record holds a provider and connecting the new signer
    to it throws, leaving the record untouched; otherwise the stored signer
    is the argument itself.  Provider, overrides and confirmations are never
    changed. *)
Theorem registerSigner_atomic signer' this :
  provider (registerSigner signer' this).2 = provider this ∧
  overrides (registerSigner signer' this).2 = overrides this ∧
  confirmations (registerSigner signer' this).2 = confirmations this ∧
  (∀ e, (registerSigner signer' this).1 = Throw e
        ↔ ∃ p, provider this = Some p ∧ Signer_connect signer' p = Throw e) ∧
  match (registerSigner signer' this).1 with
  | Throw _ => (registerSigner signer' this).2 = this
  | Normal _ => signer (registerSigner signer' this).2 = Some signer'
  end.
Proof.
  unfold registerSigner.
  destruct (provider this) as [p|] eqn:Hp.
  - destruct (Signer_connect signer' p) as [s'|e'] eqn:Hc; simpl.
    + repeat split; try done.
      intros (p0 & [= <-] & Hc'). congruence.
    + repeat split; try done.
      * intros [= ->]. eauto.
      * intros (p0 & [= <-] & Hc'). congruence.
  - simpl. repeat split; try done. by intros (p0 & ? & _).
Qed.

(** X3. Registering the same handle twice in a row is the same as
    registering it once, for providers and for signers, whether or not the
    call throws. *)
Theorem register_idempotent provider' signer' this :
  registerProvider provider' (registerProvider provider' this).2
  = registerProvider provider' this ∧
  registerSigner signer' (registerSigner signer' this).2
  = registerSigner signer' this.
Proof.
  split.
  - unfold registerProvider.
    destruct (signer this) as [s|] eqn:Hs.
    + destruct (Signer_connect s provider') as [s'|e'] eqn:Hc; simpl.
      * by rewrite Hs, Hc.
      * by rewrite Hs, Hc.
    + simpl. by rewrite Hs.
  - unfold registerSigner.
    destruct (provider this) as [p|] eqn:Hp.
    + destruct (Signer_connect signer' p) as [s'|e'] eqn:Hc; simpl.
      * by rewrite Hp, Hc.
      * by rewrite Hp, Hc.
    + simpl. by rewrite Hp.
Qed.

(** X4. What [getConnection] returns after a registration: after
    [registerProvider] it is still the stored signer when there is one (even
    if the call threw) and the new provider otherwise; after [registerSigner]
    it is the new signer when the call returned and is unchanged when it
    threw. *)
Theorem getConnection_after_register provider' signer' this :
  getConnection (registerProvider provider' this).2
  = match signer this with
    | Some s => Some (inl s)
    | None => Some (inr provider')
    end ∧
  getConnection (registerSigner signer' this).2
  = match (registerSigner signer' this).1 with
    | Normal _ => Some (inl signer')
    | Throw _ => getConnection this
    end.
Proof.
  split.
  - unfold registerProvider, getConnection.
    destruct (signer this) as [s|] eqn:Hs.
    + destruct (Signer_connect s provider'); simpl; by rewrite ?Hs.
    + simpl. by rewrite Hs.
  - unfold registerSigner, getConnection.
    destruct (provider this) as [p|] eqn:Hp.
    + destruct (Signer_connect signer' p); simpl; by rewrite ?Hp.
    + done.
Qed.

(** X5. A record built by the constructor with both handles supplied is
    the record obtained by registering them, in either order, on a default
    record, as long as [connect] does not throw: the constructor does not
    connect the signer either. *)
Theorem constructor_as_registrations p s o n :
  (∀ e, Signer_connect s p ≠ Throw e) →
  let supplied :=
    DomainConnection_constructor
      {| idc_provider := Some p; idc_signer := Some s;
         idc_overrides := o; idc_confirmations := n |} in
  let bare :=
    DomainConnection_constructor
      {| idc_provider := None; idc_signer := None;
         idc_overrides := o; idc_confirmations := n |} in
  (registerSigner s (registerProvider p bare).2).2 = supplied ∧
  (registerProvider p (registerSigner s bare).2).2 = supplied.
Proof.
  intros Hconn. simpl.
  unfold registerSigner, registerProvider, DomainConnection_constructor; simpl.
  destruct (Signer_connect s p) as [s'|e] eqn:Hc; [done|].
  by destruct (Hconn e).
Qed.

(** X6. [registerRpcURL] fails when the provider cannot be constructed or
    when [registerProvider] fails on it, and a failing call leaves the
    record untouched; a call that returns has stored the provider built from
    the URL.  The signer is never changed. *)
Theorem registerRpcURL_atomic url this :
  signer (registerRpcURL url this).2 = signer this ∧
  match (registerRpcURL url this).1 with
  | Throw e =>
      (registerRpcURL url this).2 = this ∧
      (JsonRpcProvider_new url = Throw e ∨
       ∃ p s, JsonRpcProvider_new url = Normal p ∧ signer this = Some s ∧
              Signer_connect s p = Throw e)
  | Normal _ =>
      ∃ p, JsonRpcProvider_new url = Normal p ∧
           provider (registerRpcURL url this).2 = Some p
  end.
Proof.
  unfold registerRpcURL.
  destruct (JsonRpcProvider_new url) as [p|e] eqn:Hnew; [|simpl; by auto].
  split; [apply registerProvider_signer|].
  unfold registerProvider.
  destruct (signer this) as [s|] eqn:Hs; [|simpl; by eauto].
  destruct (Signer_connect s p) as [s'|e] eqn:Hc; simpl; [by eauto|].
  split; [done|]. right. by exists p, s.
Qed.

(** X7. [registerWalletSigner] fails when the wallet cannot be constructed
    from the key or when [registerSigner] fails on it, and a failing call
    leaves the record untouched; a call that returns has stored the wallet
    built from the key.  The provider is never changed. *)
Theorem registerWalletSigner_atomic privatekey this :
  provider (registerWalletSigner privatekey this).2 = provider this ∧
  match (registerWalletSigner privatekey this).1 with
  | Throw e =>
      (registerWalletSigner privatekey this).2 = this ∧
      (Wallet_new privatekey = Throw e ∨
       ∃ w p, Wallet_new privatekey = Normal w ∧ provider this = Some p ∧
              Signer_connect w p = Throw e)
  | Normal _ =>
      ∃ w, Wallet_new privatekey = Normal w ∧
           signer (registerWalletSigner privatekey this).2 = Some w
  end.
Proof.
  unfold registerWalletSigner.
  destruct (Wallet_new privatekey) as [w|e] eqn:Hnew; [|simpl; by auto].
  split; [apply registerSigner_provider|].
  unfold registerSigner.
  destruct (provider this) as [p|] eqn:Hp; [|simpl; by eauto].
  destruct (Signer_connect w p) as [s'|e] eqn:Hc; simpl; [by eauto|].
  split; [done|]. right. by exists w, p.
Qed.

(** X8. [getAddress] yields a promise exactly when [getConnection] yields a
    signer, and then it is that signer's address; registering a provider
    never changes it. *)
Theorem getAddress_follows_signer provider' this :
  (∀ a, getAddress this = Some a
        ↔ ∃ s, getConnection this = Some (inl s) ∧ Signer_getAddress s = a) ∧
  (getAddress this = None ↔ ∀ s, getConnection this ≠ Some (inl s)) ∧
  getAddress (registerProvider provider' this).2 = getAddress this.
Proof.
  split; [|split].
  - intros a. unfold getAddress, getConnection.
    destruct (signer this) as [s|].
    + split; [intros [= <-]; eauto | intros (s0 & [= <-] & <-); done].
    + split; [done|]. intros (s0 & Hc & _). by destruct (provider this).
  - unfold getAddress, getConnection. destruct (signer this) as [s|].
    + split; [done|]. intros Hno. by destruct (Hno s).
    + split; [|done]. intros _ s. by destruct (provider this).
  - unfold getAddress. by rewrite registerProvider_signer.
Qed.

End RecordMethodFacts.

(** ** Further properties of the registry *)
Section RegistryMethodFacts.
Context `{Ethers}.
Context {ChainName : Type} `{EqDecision ChainName}.
Implicit Types (σ : Store) (params obj : list (ChainName * IDomainConnection)).
Implicit Types (this : MultiProvider (ChainName := ChainName)).
Implicit Types (network : ChainName) (chains arr : list ChainName).
Implicit Types
  (networks : list ChainName + list (ChainName * IDomainConnection)).

Lemma getDomainConnection_Normal this network r :
  getDomainConnection this network = Normal r
  ↔ obj_get network (chainMap this) = Some r.
Proof.
  unfold getDomainConnection, MultiGeneric_get.
  destruct (obj_get network (chainMap this)); split; congruence.
Qed.

(** X9. [registerProvider] and [registerSigner], called on the record
    [get(network)] returns: a call that throws leaves the whole store as it
    was; a call that returns has replaced the one handle of that record and
    kept its other three fields; either way the registry stays well formed
    and the records of all other networks read as before. *)
Theorem method_call_frame this σ network r :
  well_formed this σ →
  getDomainConnection this network = Normal r →
  ∃ dc,
    σ !! r = Some dc ∧
    (∀ p, ∃ c σ',
       invoke r (registerProvider p) σ = Some (c, σ') ∧
       match c with
       | Throw _ => σ' = σ
       | Normal _ =>
           σ' !! r = Some {| provider := Some p; signer := signer dc;
                             overrides := overrides dc;
                             confirmations := confirmations dc |}
       end ∧
       well_formed this σ' ∧
       ∀ network' r',
         network' ≠ network →
         getDomainConnection this network' = Normal r' →
         σ' !! r' = σ !! r') ∧
    (∀ s, ∃ c σ',
       invoke r (registerSigner s) σ = Some (c, σ') ∧
       match c with
       | Throw _ => σ' = σ
       | Normal _ =>
           σ' !! r = Some {| provider := provider dc; signer := Some s;
                             overrides := overrides dc;
                             confirmations := confirmations dc |}
       end ∧
       well_formed this σ' ∧
       ∀ network' r',
         network' ≠ network →
         getDomainConnection this network' = Normal r' →
         σ' !! r' = σ !! r').
Proof.
  intros Hwf Hget.
  pose proof (well_formed_allocated _ _ _ _ Hwf Hget) as Hr.
  apply lookup_lt_is_Some in Hr as [dc Hdc]. exists dc.
  split; [done|]. split.
  - intros p.
    destruct (invoke_spec r (registerProvider p) σ dc Hdc)
      as (Hinv & Hnew & Hlen & Hframe).
    eexists _, _. split; [exact Hinv|]. split; [|split].
    + revert Hnew. unfold registerProvider.
      destruct (signer dc) as [s|] eqn:Hs; [destruct (Signer_connect s p)|];
        simpl; unfold assign_provider; rewrite ?Hs; try done.
      intros _. by apply list_insert_id.
    + destruct Hwf as (? & ? & ?). unfold well_formed. by rewrite Hlen.
    + intros network' r' Hne Hget'. apply Hframe.
      by apply (well_formed_distinct this σ network network').
  - intros s.
    destruct (invoke_spec r (registerSigner s) σ dc Hdc)
      as (Hinv & Hnew & Hlen & Hframe).
    eexists _, _. split; [exact Hinv|]. split; [|split].
    + revert Hnew. unfold registerSigner.
      destruct (provider dc) as [p|] eqn:Hp; [destruct (Signer_connect s p)|];
        simpl; unfold assign_signer; rewrite ?Hp; try done.
      intros _. by apply list_insert_id.
    + destruct Hwf as (? & ? & ?). unfold well_formed. by rewrite Hlen.
    + intros network' r' Hne Hget'. apply Hframe.
      by apply (well_formed_distinct this σ network network').
Qed.

(** Calls on allocated objects commute when the two methods commute on a
    record, the objects being the same or not. *)
Lemma invoke_commute {A B : Type}
    (m1 : DomainConnection → A * DomainConnection)
    (m2 : DomainConnection → B * DomainConnection) σ r1 r2 :
  is_Some (σ !! r1) → is_Some (σ !! r2) →
  (∀ dc, m2 (m1 dc).2 = ((m2 dc).1, (m1 (m2 dc).2).2) ∧
         (m1 (m2 dc).2).1 = (m1 dc).1) →
  calls_commute r1 m1 r2 m2 σ.
Proof.
  intros [dc1 Hdc1] [dc2 Hdc2] Hcomm. unfold calls_commute.
  destruct (invoke_spec r1 m1 σ dc1 Hdc1) as (Hinv1 & Hnew1 & _).
  destruct (invoke_spec r2 m2 σ dc2 Hdc2) as (Hinv2 & Hnew2 & _).
  exists (m1 dc1).1, (m2 dc2).1, (<[r1 := (m1 dc1).2]> σ),
    (<[r2 := (m2 dc2).2]> σ).
  destruct (decide (r1 = r2)) as [->|Hne].
  - assert (dc2 = dc1) as -> by congruence.
    destruct (Hcomm dc1) as [H21 H12].
    exists (<[r2 := (m1 (m2 dc1).2).2]> σ).
    split; [done|]. split; [|split; [done|]].
    + unfold invoke. rewrite Hnew1, H21.
      unfold Store in *. by rewrite list_insert_insert_eq.
    + unfold invoke. rewrite Hnew2.
      destruct (m1 (m2 dc1).2) as [a dc'] eqn:Hm. simpl in *. subst a.
      unfold Store in *. by rewrite list_insert_insert_eq.
  - exists (<[r2 := (m2 dc2).2]> (<[r1 := (m1 dc1).2]> σ)).
    split; [done|]. split; [|split; [done|]].
    + unfold invoke, Store in *.
      rewrite list_lookup_insert_ne by done. rewrite Hdc2.
      by destruct (m2 dc2).
    + unfold invoke, Store in *.
      rewrite list_lookup_insert_ne by done. rewrite Hdc1.
      destruct (m1 dc1) as [a dc1'] eqn:Hm1; simpl.
      by rewrite list_insert_insert_ne.
Qed.

(** X10. [registerConfirmations] and [registerOverrides] commute with each
    other and with [registerProvider] and [registerSigner], whichever two
    networks' records the calls are made on, the same record included: both
    orders return the same results and end in the same store. *)
Theorem method_calls_commute this σ network1 network2 r1 r2 n o p s :
  well_formed this σ →
  getDomainConnection this network1 = Normal r1 →
  getDomainConnection this network2 = Normal r2 →
  calls_commute r1 (registerConfirmations n) r2 (registerOverrides o) σ ∧
  calls_commute r1 (registerConfirmations n) r2 (registerProvider p) σ ∧
  calls_commute r1 (registerConfirmations n) r2 (registerSigner s) σ ∧
  calls_commute r1 (registerOverrides o) r2 (registerProvider p) σ ∧
  calls_commute r1 (registerOverrides o) r2 (registerSigner s) σ.
Proof.
  intros Hwf Hget1 Hget2.
  pose proof (well_formed_allocated _ _ _ _ Hwf Hget1) as Hr1.
  pose proof (well_formed_allocated _ _ _ _ Hwf Hget2) as Hr2.
  apply lookup_lt_is_Some in Hr1, Hr2.
  repeat split; apply invoke_commute; try done; intros dc.
  - unfold registerProvider; simpl.
    destruct (signer dc) as [s0|] eqn:Hs; [destruct (Signer_connect s0 p)|];
      simpl; unfold assign_provider; simpl; rewrite ?Hs; split; reflexivity.
  - unfold registerSigner; simpl.
    destruct (provider dc) as [p0|] eqn:Hp; [destruct (Signer_connect s p0)|];
      simpl; unfold assign_signer; simpl; rewrite ?Hp; split; reflexivity.
  - unfold registerProvider; simpl.
    destruct (signer dc) as [s0|] eqn:Hs; [destruct (Signer_connect s0 p)|];
      simpl; unfold assign_provider; simpl; rewrite ?Hs; split; reflexivity.
  - unfold registerSigner; simpl.
    destruct (provider dc) as [p0|] eqn:Hp; [destruct (Signer_connect s p0)|];
      simpl; unfold assign_signer; simpl; rewrite ?Hp; split; reflexivity.
Qed.

(** The constructor leaves the objects already in the store alone, and the
    records of the new registry are objects it has just allocated. *)
Lemma constructor_store_frame networks σ r :
  (r < length σ)%nat →
  (MultiProvider_constructor networks σ).2 !! r = σ !! r.
Proof.
  destruct (constructor_params networks σ) as (params & _ & _ & _ & _ & Hs).
  intros Hr. rewrite Hs. by apply providerEntries_frame.
Qed.

Lemma constructor_refs_fresh networks σ :
  Forall (fun r => (length σ ≤ r < length σ + length (identifiers networks))%nat)
         (getAll (MultiProvider_constructor networks σ).1).
Proof.
  destruct (constructor_params networks σ) as (params & Hk & _ & _ & Hm & _).
  assert (length params = length (identifiers networks)) as Hlen.
  { by rewrite <- Hk, length_fmap. }
  unfold getAll, MultiGeneric_values, Object_values. rewrite Hm.
  apply Forall_forall. intros r Hr.
  apply set_all_elem_values in Hr as [Hr|Hr]; [by apply elem_of_nil in Hr|].
  rewrite providerEntries_refs in Hr. apply elem_of_seq in Hr. lia.
Qed.

(** X11. The constructor allocates one object per element of its input,
    repeated identifiers included, after the objects already in the store
    and without touching them; the records of the new registry are among
    the new objects. *)
Theorem constructor_allocates_fresh networks σ :
  length (MultiProvider_constructor networks σ).2
  = (length σ + length (identifiers networks))%nat ∧
  (∀ r, (r < length σ)%nat →
        (MultiProvider_constructor networks σ).2 !! r = σ !! r) ∧
  Forall (fun r => (length σ ≤ r < length σ + length (identifiers networks))%nat)
         (getAll (MultiProvider_constructor networks σ).1).
Proof.
  split; [|split].
  - destruct (constructor_params networks σ) as (params & Hk & _ & _ & _ & Hs).
    by rewrite Hs, providerEntries_length, <- Hk, length_fmap.
  - intros r. apply constructor_store_frame.
  - apply constructor_refs_fresh.
Qed.

(** X12. Two registries built one after the other share no record, and
    building the second leaves the first well formed with all its records
    unchanged. *)
Theorem registries_independent networks1 networks2 σ :
  let built1 := MultiProvider_constructor networks1 σ in
  let built2 := MultiProvider_constructor networks2 built1.2 in
  well_formed built1.1 built2.2 ∧
  well_formed built2.1 built2.2 ∧
  records built1.1 built2.2 = records built1.1 built1.2 ∧
  ∀ r, r ∈ getAll built1.1 → r ∉ getAll built2.1.
Proof.
  intros built1 built2.
  pose proof (constructor_well_formed networks1 σ) as (Hk1 & Hv1 & Ha1).
  pose proof (constructor_well_formed networks2 built1.2) as Hwf2.
  pose proof (constructor_store_frame networks2 built1.2) as Hframe.
  pose proof (constructor_refs_fresh networks2 built1.2) as Hfresh.
  assert (length built1.2 ≤ length built2.2) as Hlen.
  { destruct (constructor_params networks2 built1.2)
      as (params & _ & _ & _ & _ & Hs).
    unfold built2. rewrite Hs, providerEntries_length. lia. }
  fold built1 in Hk1, Hv1, Ha1. fold built2 in Hwf2, Hframe, Hfresh.
  rewrite Forall_forall in Ha1, Hfresh.
  split; [|split; [done|split]].
  - split; [done|]. split; [done|]. apply Forall_forall. intros r Hr.
    specialize (Ha1 r Hr). lia.
  - unfold records. apply Forall_mapM_ext, Forall_forall.
    intros r Hr. apply Hframe, Ha1, Hr.
  - intros r Hr1 Hr2. specialize (Ha1 r Hr1). specialize (Hfresh r Hr2). lia.
Qed.

(** X13. [getChains] reads its argument as a set: two queries with the same
    members, in any order and with any repetition, return the same
    entries. *)
Theorem getChains_query_is_a_set this chains chains' :
  (∀ network, network ∈ chains ↔ network ∈ chains') →
  getChains this chains = getChains this chains'.
Proof.
  intros Hsame. unfold getChains.
  induction (MultiGeneric_entries this) as [|[k r] o IH]; [done|].
  rewrite !filter_cons. cbn [fst].
  destruct (decide (k ∈ chains)) as [Hin|Hnot];
    destruct (decide (k ∈ chains')) as [Hin'|Hnot'].
  - by rewrite IH.
  - by apply Hsame in Hin.
  - by apply Hsame in Hin'.
  - exact IH.
Qed.

Lemma getChains_all_keys this chains :
  (∀ network, network ∈ (MultiGeneric_entries this).*1 → network ∈ chains) →
  getChains this chains = MultiGeneric_entries this.
Proof.
  unfold getChains.
  induction (MultiGeneric_entries this) as [|[k r] o IH]; [done|].
  intros Hall. rewrite filter_cons. cbn [fst].
  destruct (decide (k ∈ chains)) as [_|Hnot].
  - f_equal. apply IH. intros network Hin. apply Hall.
    simpl. by apply list_elem_of_further.
  - destruct Hnot. apply Hall. simpl. apply list_elem_of_here.
Qed.

(** X14. The two extreme queries: the empty query returns nothing, and a
    query that lists every key of the registry returns all its entries. *)
Theorem getChains_extremes this chains :
  getChains this [] = [] ∧
  ((∀ network, network ∈ (MultiGeneric_entries this).*1 → network ∈ chains) →
   getChains this chains = MultiGeneric_entries this).
Proof.
  split; [|apply getChains_all_keys].
  unfold getChains.
  induction (MultiGeneric_entries this) as [|[k r] o IH]; [done|].
  rewrite filter_cons. cbn [fst].
  destruct (decide (k ∈ [])) as [Hin|_]; [by apply elem_of_nil in Hin|done].
Qed.

(** X15. In a well-formed registry [getChains] and [get] agree: a pair
    (identifier, record) is returned by [getChains(chains)] exactly when the
    identifier is in [chains] and [get] returns that record for it; hence no
    identifier is returned twice. *)
Theorem getChains_agrees_with_get this σ chains :
  well_formed this σ →
  (∀ network r,
     (network, r) ∈ getChains this chains
     ↔ network ∈ chains ∧ getDomainConnection this network = Normal r) ∧
  NoDup (getChains this chains).*1.
Proof.
  intros (Hkeys & _ & _). split.
  - intros network r. rewrite getDomainConnection_Normal.
    unfold getChains, MultiGeneric_entries, Object_entries.
    rewrite list_elem_of_filter; simpl. split.
    + intros [Hin Hentry]. split; [done|]. by apply obj_get_elem_NoDup.
    + intros [Hin Hget]. split; [done|]. by apply obj_get_Some_elem.
  - rewrite getChains_keys. by apply NoDup_filter.
Qed.

(** X16. In a well-formed registry [getAll] lists exactly the records [get]
    can return, each once, and as many as there are keys. *)
Theorem getAll_agrees_with_get this σ :
  well_formed this σ →
  (∀ r, r ∈ getAll this
        ↔ ∃ network, getDomainConnection this network = Normal r) ∧
  NoDup (getAll this) ∧
  length (getAll this) = length (MultiGeneric_entries this) ∧
  getAll this = (getChains this (MultiGeneric_entries this).*1).*2.
Proof.
  intros (Hkeys & Hrefs & _).
  unfold getAll, MultiGeneric_values, Object_values.
  split; [|split; [done|split]].
  - intros r. split.
    + intros Hr. apply list_elem_of_fmap in Hr as ([network r'] & -> & Hin).
      exists network. apply getDomainConnection_Normal.
      by apply obj_get_elem_NoDup.
    + intros [network Hget]. apply getDomainConnection_Normal in Hget.
      apply obj_get_Some_elem in Hget.
      by apply (list_elem_of_fmap_2 snd) in Hget.
  - unfold MultiGeneric_entries, Object_entries. by rewrite length_fmap.
  - by rewrite getChains_all_keys.
Qed.

(** X17. A registry built from the empty list (or the empty mapping) holds
    nothing and allocates nothing: every [get] fails, [getAll] and every
    [getChains] are empty, and [ready()] fulfils at once with no network. *)
Theorem constructor_empty networks σ network chains :
  identifiers networks = [] →
  (MultiProvider_constructor networks σ).2 = σ ∧
  getDomainConnection (MultiProvider_constructor networks σ).1 network
  = Throw LookupError ∧
  getAll (MultiProvider_constructor networks σ).1 = [] ∧
  getChains (MultiProvider_constructor networks σ).1 chains = [] ∧
  ready (MultiProvider_constructor networks σ).1
        (MultiProvider_constructor networks σ).2
  = Some (Normal (Some (0, Fulfilled []))).
Proof.
  intros Hid.
  assert (MultiProvider_constructor networks σ = ({| chainMap := [] |}, σ))
    as ->; [|done].
  destruct networks as [[|? ?]|[|? ?]]; done.
Qed.

End RegistryMethodFacts.

(** ** Further properties of [Promise.all] and [ready] *)
Section PromiseAllFacts.
Context {A : Type}.
Implicit Types (ps : list (Promise A)).

(** The values come in input order, none later than the result. *)
Lemma all_fulfilled_in_order ps t vs :
  all_fulfilled ps = Some (t, vs) →
  Forall2 (fun p v => ∃ t', p = Some (t', Fulfilled v) ∧ t' ≤ t) ps vs.
Proof.
  revert t vs. induction ps as [|p ps IH]; intros t vs; simpl.
  - intros [= <- <-]. constructor.
  - destruct p as [[tp [v|e]]|]; try done.
    destruct (all_fulfilled ps) as [[t' vs']|]; [|done].
    intros [= <- <-]. constructor.
    + exists tp. split; [done | lia].
    + eapply Forall2_impl; [by apply IH|].
      intros p v' (t0 & -> & Ht0). exists t0. split; [done | lia].
Qed.

(** Without a rejection, the result stays pending exactly when some input
    does. *)
Lemma all_fulfilled_None ps :
  Forall (fun p => ¬ rejects p) ps →
  all_fulfilled ps = None ↔ Exists (fun p => p = None) ps.
Proof.
  induction 1 as [|p ps Hp _ IH]; simpl.
  - split; [done | by intros ?%Exists_nil].
  - rewrite Exists_cons. destruct p as [[tp [v|e]]|].
    + destruct (all_fulfilled ps) as [[t' vs']|].
      * split; [done|]. intros [?|Hex]; [done|]. by apply IH in Hex.
      * split; [|done]. intros _. right. by apply IH.
    + destruct Hp. by exists tp, e.
    + split; [by left | done].
Qed.

End PromiseAllFacts.

Section ReadyMethodFacts.
Context `{Ethers}.
Context {ChainName : Type} `{EqDecision ChainName}.
Implicit Types (σ : Store) (dcs : list DomainConnection).
Implicit Types (this : MultiProvider (ChainName := ChainName)).

(** X18. When [ready()] fulfils, its value lists one network per record, in
    registry order: the i-th network is the one the i-th record's provider
    reported, and no check finished after [ready()] did. *)
Theorem ready_fulfils_in_order this σ dcs t ns :
  records this σ = Some dcs →
  ready this σ = Some (Normal (Some (t, Fulfilled ns))) →
  Forall2 (fun dc n => ∃ p t', provider dc = Some p ∧
                               Provider_ready p = Some (t', Fulfilled n) ∧
                               t' ≤ t) dcs ns.
Proof.
  intros Hdcs. unfold ready. rewrite Hdcs. clear Hdcs.
  destruct (Array_map_throwing provider_ready dcs) as [ps|e] eqn:Hmap; [|done].
  unfold Promise_all.
  destruct (first_rejection ps) as [[? ?]|]; [done|].
  destruct (all_fulfilled ps) as [[t0 vs]|] eqn:Hf; [|done].
  intros [= -> ->]. apply all_fulfilled_in_order in Hf.
  apply provider_ready_normal in Hmap. revert ns Hf.
  induction Hmap as [|dc p dcs' ps' (pr & Hpr & <-) _ IH]; intros ns Hf.
  - apply Forall2_nil_inv_l in Hf as ->. constructor.
  - apply Forall2_cons_inv_l in Hf as (n & ns' & (t' & Hp & Ht') & Hrest & ->).
    constructor; [|by apply IH]. exists pr, t'. done.
Qed.

(** X19. When [ready()] rejects, every record has a provider, the reason
    is that of a readiness check that failed at that very tick, and no check
    failed earlier: the first failure decides, whatever the remaining checks
    do afterwards. *)
Theorem ready_rejects_with_first_failure this σ dcs t e :
  records this σ = Some dcs →
  ready this σ = Some (Normal (Some (t, Rejected e))) →
  Forall (fun dc => is_Some (provider dc)) dcs ∧
  Exists (check_fails t e) dcs ∧
  ∀ t' e', Exists (check_fails t' e') dcs → t ≤ t'.
Proof.
  intros Hdcs. unfold ready. rewrite Hdcs. clear Hdcs.
  destruct (Array_map_throwing provider_ready dcs) as [ps|e0] eqn:Hmap; [|done].
  unfold Promise_all.
  destruct (first_rejection ps) as [[t0 e0]|] eqn:Hr.
  - intros [= -> ->]. apply first_rejection_Some in Hr as [Hin Hmin].
    split; [|split].
    + pose proof (proj1 (provider_ready_normal dcs ps) Hmap) as Hall.
      clear -Hall. induction Hall as [|dc p dcs' ps' (pr & Hpr & _) _ IH];
        constructor; eauto.
    + by apply (provider_ready_rejects dcs ps t e Hmap).
    + intros t' e' Hex. apply (Hmin t' e').
      by apply (provider_ready_rejects dcs ps t' e' Hmap).
  - by destruct (all_fulfilled ps) as [[? ?]|].
Qed.

(** X20. [ready()] never settles exactly when every record has a provider,
    no readiness check fails, and some check never settles. *)
Theorem ready_pending this σ dcs :
  records this σ = Some dcs →
  ready this σ = Some (Normal None)
  ↔ Forall (fun dc => is_Some (provider dc)) dcs ∧
    (∀ t e, ¬ Exists (check_fails t e) dcs) ∧
    Exists (fun dc => ∃ p, provider dc = Some p ∧ Provider_ready p = None) dcs.
Proof.
  intros Hdcs. unfold ready. rewrite Hdcs. clear Hdcs. split.
  - destruct (Array_map_throwing provider_ready dcs) as [ps|e0] eqn:Hmap;
      [|done].
    unfold Promise_all.
    destruct (first_rejection ps) as [[t0 e0]|] eqn:Hr; [done|].
    destruct (all_fulfilled ps) as [[t0 vs]|] eqn:Hf; [done|]. intros _.
    apply first_rejection_None in Hr.
    pose proof (proj1 (all_fulfilled_None ps Hr) Hf) as Hpend.
    pose proof (proj1 (provider_ready_normal dcs ps) Hmap) as Hall.
    split; [|split].
    + clear -Hall. induction Hall as [|dc p dcs' ps' (pr & Hpr & _) _ IH];
        constructor; eauto.
    + intros t e Hex. apply (provider_ready_rejects dcs ps t e Hmap) in Hex.
      rewrite Forall_forall in Hr. apply (Hr _ Hex). by exists t, e.
    + clear -Hall Hpend.
      induction Hall as [|dc p dcs' ps' (pr & Hpr & <-) _ IH];
        [by apply Exists_nil in Hpend|].
      apply Exists_cons in Hpend as [Hp|Hpend].
      * apply Exists_cons_hd. eauto.
      * apply Exists_cons_tl. by apply IH.
  - intros (Hprov & Hnofail & Hpend).
    destruct (provider_ready_total dcs Hprov) as [ps Hmap]. rewrite Hmap.
    unfold Promise_all.
    assert (Forall (fun p => ¬ rejects p) ps) as Hr.
    { apply Forall_forall. intros p Hin (t & e & ->).
      apply (Hnofail t e). by apply (provider_ready_rejects dcs ps t e Hmap). }
    rewrite (proj2 (first_rejection_None ps) Hr).
    rewrite (proj2 (all_fulfilled_None ps Hr)); [done|].
    apply provider_ready_normal in Hmap. clear -Hmap Hpend.
    induction Hmap as [|dc p dcs' ps' (pr & Hpr & <-) _ IH];
      [by apply Exists_nil in Hpend|].
    apply Exists_cons in Hpend as [(pr' & Hpr' & Hnone)|Hpend].
    + apply Exists_cons_hd. congruence.
    + apply Exists_cons_tl. by apply IH.
Qed.

(** A method call that keeps the provider of its record keeps what the
    [map] of [ready()] computes. *)
Lemma records_keep_provider (σ σ' : Store) (refs : list ref) :
  (∀ r, match σ' !! r, σ !! r with
        | Some dc', Some dc => provider dc' = provider dc
        | None, None => True
        | _, _ => False
        end) →
  match mapM (fun r => σ' !! r) refs, mapM (fun r => σ !! r) refs with
  | Some dcs', Some dcs =>
      Array_map_throwing provider_ready dcs'
      = Array_map_throwing provider_ready dcs
  | None, None => True
  | _, _ => False
  end.
Proof.
  intros Hsame. induction refs as [|r refs IH]; simpl; [done|].
  specialize (Hsame r).
  destruct (σ' !! r) as [dc'|], (σ !! r) as [dc|]; simpl; try done.
  destruct (mapM (fun r => σ' !! r) refs) as [dcs'|],
    (mapM (fun r => σ !! r) refs) as [dcs|]; simpl; try done.
  unfold provider_ready at 1 3. rewrite Hsame, IH. done.
Qed.

Lemma ready_keeps_provider {A : Type}
    (m : DomainConnection → A * DomainConnection) this σ r a σ' :
  (∀ dc, provider (m dc).2 = provider dc) →
  invoke r m σ = Some (a, σ') →
  ready this σ' = ready this σ.
Proof.
  intros Hkeep Hinv. unfold invoke in Hinv.
  destruct (σ !! r) as [dc|] eqn:Hdc; [|done].
  specialize (Hkeep dc). destruct (m dc) as [a' dc']; simpl in *.
  injection Hinv as -> <-.
  assert (∀ r0, match <[r:=dc']> σ !! r0, σ !! r0 with
                | Some dc1, Some dc0 => provider dc1 = provider dc0
                | None, None => True
                | _, _ => False
                end) as Hsame.
  { intros r0. unfold Store in *. destruct (decide (r = r0)) as [<-|Hne].
    - rewrite list_lookup_insert_eq by (by apply lookup_lt_Some in Hdc).
      by rewrite Hdc.
    - rewrite list_lookup_insert_ne by done. by destruct (σ !! r0). }
  pose proof (records_keep_provider σ (<[r:=dc']> σ)
                (MultiGeneric_values this) Hsame) as Hrec.
  unfold ready, records.
  destruct (mapM (fun r0 => <[r:=dc']> σ !! r0) (MultiGeneric_values this)),
    (mapM (fun r0 => σ !! r0) (MultiGeneric_values this)); try done.
  by rewrite Hrec.
Qed.

(** X21. [ready()] depends on the providers only: registering
    confirmations, overrides or a signer on any record leaves its outcome
    as it was. *)
Theorem ready_ignores_other_fields this σ r :
  (∀ n x σ', invoke r (registerConfirmations n) σ = Some (x, σ') →
             ready this σ' = ready this σ) ∧
  (∀ o x σ', invoke r (registerOverrides o) σ = Some (x, σ') →
             ready this σ' = ready this σ) ∧
  (∀ s x σ', invoke r (registerSigner s) σ = Some (x, σ') →
             ready this σ' = ready this σ).
Proof.
  split; [|split].
  - intros n x σ'. by apply ready_keeps_provider.
  - intros o x σ'. by apply ready_keeps_provider.
  - intros s x σ'. apply ready_keeps_provider.
    intros dc. apply registerSigner_provider.
Qed.

End ReadyMethodFacts.

(** X22. The configuration table has exactly one entry for each testnet
    name, so a lookup by name always succeeds. *)
Theorem configs_total (name : Testnets.TestnetName) :
  NoDup (Object_keys Testnets.configs) ∧
  ∃ config, obj_get name Testnets.configs = Some config ∧
            (name, config) ∈ Testnets.configs.
Proof.
  split.
  - unfold Object_keys, Testnets.configs, Testnets._configs; simpl.
    repeat (apply NoDup_cons; split;
            [rewrite ?not_elem_of_cons; repeat split;
             try discriminate; apply not_elem_of_nil|]).
    apply NoDup_nil_2.
  - destruct name; eexists; (split; [reflexivity|]);
      unfold Testnets.configs, Testnets._configs;
      repeat (first [apply list_elem_of_here | apply list_elem_of_further]).
Qed.

(** ** The further properties at sample inputs *)

Lemma constructor_as_registrations_witness :
  (registerSigner deployer
     (registerProvider alfajores_rpc
        (DomainConnection_constructor empty_object)).2).2
  = DomainConnection_constructor
      {| idc_provider := Some alfajores_rpc; idc_signer := Some deployer;
         idc_overrides := None; idc_confirmations := None |}.
Proof.
  apply (constructor_as_registrations alfajores_rpc deployer None None).
  intros e. discriminate.
Defined.

Lemma registerRpcURL_atomic_witness :
  signer (registerRpcURL (connection_url fuji_rpc)
            (DomainConnection_constructor empty_object)).2 = None ∧
  provider (registerRpcURL (connection_url fuji_rpc)
              (DomainConnection_constructor empty_object)).2 = Some fuji_rpc.
Proof.
  pose proof (registerRpcURL_atomic (connection_url fuji_rpc)
                (DomainConnection_constructor empty_object)) as [Hs Hout].
  split; [exact Hs|].
  simpl in Hout. destruct Hout as (p & Hnew & Hp).
  injection Hnew as <-. exact Hp.
Defined.

Lemma registerWalletSigner_atomic_witness :
  (registerWalletSigner "0x01" (DomainConnection_constructor empty_object)).2
  = DomainConnection_constructor empty_object ∧
  signer (registerWalletSigner sample_key
            (DomainConnection_constructor empty_object)).2
  = Some (new_Wallet sample_key).
Proof.
  split.
  - pose proof (registerWalletSigner_atomic "0x01"
                  (DomainConnection_constructor empty_object)) as [_ Hout].
    simpl in Hout. exact (proj1 Hout).
  - pose proof (registerWalletSigner_atomic sample_key
                  (DomainConnection_constructor empty_object)) as [_ Hout].
    simpl in Hout. destruct Hout as (w & Hnew & Hs).
    injection Hnew as <-. exact Hs.
Defined.

Lemma getAddress_follows_signer_witness :
  getAddress (registerProvider alfajores_rpc
                (registerSigner (new_Wallet sample_key)
                   (DomainConnection_constructor empty_object)).2).2
  = Some (Some (0, Fulfilled "0x14791697260E4c9A71f18484C9f997B308e59325")) ∧
  getAddress (DomainConnection_constructor empty_object) = None.
Proof.
  split.
  - rewrite (proj2 (proj2 (getAddress_follows_signer alfajores_rpc _))).
    apply (proj1 (getAddress_follows_signer alfajores_rpc _)).
    exists (new_Wallet sample_key). split; reflexivity.
  - apply (proj1 (proj2 (getAddress_follows_signer alfajores_rpc _))).
    intros s. discriminate.
Defined.

Lemma method_call_frame_witness :
  ∃ σ',
    invoke 0 (registerProvider alfajores_rpc) two_testnets.2
    = Some (Normal tt, σ') ∧
    σ' !! 0 = Some {| provider := Some alfajores_rpc; signer := None;
                      overrides := ∅; confirmations := 0 |} ∧
    σ' !! 1 = two_testnets.2 !! 1 ∧
    well_formed two_testnets.1 σ'.
Proof.
  assert (getDomainConnection two_testnets.1 Testnets.Alfajores = Normal 0)
    as Hget by reflexivity.
  destruct (method_call_frame
              two_testnets.1 two_testnets.2 Testnets.Alfajores 0
              (constructor_well_formed
                 (inl [Testnets.Alfajores; Testnets.Fuji]) [])
              Hget) as (dc & Hdc & Hprov & _).
  injection Hdc as <-.
  destruct (Hprov alfajores_rpc) as (c & σ' & Hinv & Hnew & Hwf & Hframe).
  assert (c = Normal tt) as -> by (vm_compute in Hinv; congruence).
  exists σ'. split; [exact Hinv|]. split; [exact Hnew|]. split; [|exact Hwf].
  apply (Hframe Testnets.Fuji 1); [discriminate | reflexivity].
Defined.

Lemma method_calls_commute_witness :
  calls_commute 0 (registerConfirmations 5)
                0 (registerProvider alfajores_rpc) two_testnets.2 ∧
  calls_commute 0 (registerOverrides {[ "gasLimit" := Number 600000000 ]})
                1 (registerSigner deployer) two_testnets.2.
Proof.
  assert (getDomainConnection two_testnets.1 Testnets.Alfajores = Normal 0)
    as Hget0 by reflexivity.
  assert (getDomainConnection two_testnets.1 Testnets.Fuji = Normal 1)
    as Hget1 by reflexivity.
  split.
  - apply (method_calls_commute two_testnets.1 two_testnets.2
             Testnets.Alfajores Testnets.Alfajores 0 0
             5%Z ∅ alfajores_rpc deployer
             (constructor_well_formed
                (inl [Testnets.Alfajores; Testnets.Fuji]) [])
             Hget0 Hget0).
  - apply (method_calls_commute two_testnets.1 two_testnets.2
             Testnets.Alfajores Testnets.Fuji 0 1
             5%Z {[ "gasLimit" := Number 600000000 ]} alfajores_rpc deployer
             (constructor_well_formed
                (inl [Testnets.Alfajores; Testnets.Fuji]) [])
             Hget0 Hget1).
Defined.

Lemma constructor_allocates_fresh_witness :
  length (MultiProvider_constructor
            (inl [Testnets.Alfajores; Testnets.Fuji; Testnets.Alfajores])
            two_testnets.2).2 = 5 ∧
  (MultiProvider_constructor
     (inl [Testnets.Alfajores; Testnets.Fuji; Testnets.Alfajores])
     two_testnets.2).2 !! 1 = two_testnets.2 !! 1.
Proof.
  destruct (constructor_allocates_fresh
              (inl [Testnets.Alfajores; Testnets.Fuji; Testnets.Alfajores])
              two_testnets.2) as (Hlen & Hframe & _).
  split; [exact Hlen|]. apply Hframe. vm_compute. lia.
Defined.

Lemma registries_independent_witness :
  well_formed two_testnets.1
    (MultiProvider_constructor (inl [Testnets.Fuji]) two_testnets.2).2 ∧
  2 ∉ getAll two_testnets.1.
Proof.
  destruct (registries_independent
              (inl [Testnets.Alfajores; Testnets.Fuji])
              (inl [Testnets.Fuji]) ([] : Store (H := ethers_v5)))
    as (Hwf & _ & _ & Hdisj).
  split; [exact Hwf|].
  intros Hin. apply (Hdisj 2 Hin). apply list_elem_of_here.
Defined.

Lemma getChains_query_is_a_set_witness :
  getChains two_testnets.1
    [Testnets.Fuji; Testnets.Kovan; Testnets.Fuji]
  = getChains two_testnets.1 [Testnets.Kovan; Testnets.Fuji].
Proof.
  apply getChains_query_is_a_set. intros network.
  rewrite !elem_of_cons. tauto.
Defined.

Lemma getChains_extremes_witness :
  getChains two_testnets.1 [] = [] ∧
  getChains two_testnets.1
    [Testnets.Goerli; Testnets.Fuji; Testnets.Alfajores]
  = [(Testnets.Alfajores, 0); (Testnets.Fuji, 1)].
Proof.
  split.
  - apply (getChains_extremes two_testnets.1 []).
  - apply (getChains_extremes two_testnets.1
             [Testnets.Goerli; Testnets.Fuji; Testnets.Alfajores]).
    intros network Hin. vm_compute in Hin.
    apply elem_of_cons in Hin as [->|Hin].
    + apply list_elem_of_further, list_elem_of_further, list_elem_of_here.
    + apply list_elem_of_singleton in Hin as ->.
      apply list_elem_of_further, list_elem_of_here.
Defined.

Lemma getChains_agrees_with_get_witness :
  (Testnets.Fuji, 1)
    ∈ getChains two_testnets.1 [Testnets.Kovan; Testnets.Fuji] ∧
  NoDup (getChains two_testnets.1 [Testnets.Kovan; Testnets.Fuji]).*1.
Proof.
  destruct (getChains_agrees_with_get two_testnets.1 two_testnets.2
              [Testnets.Kovan; Testnets.Fuji]
              (constructor_well_formed
                 (inl [Testnets.Alfajores; Testnets.Fuji]) []))
    as [Hiff Hnd].
  split; [|exact Hnd]. apply Hiff. split; [|reflexivity].
  apply list_elem_of_further, list_elem_of_here.
Defined.

Lemma getAll_agrees_with_get_witness :
  1 ∈ getAll two_testnets.1 ∧ length (getAll two_testnets.1) = 2.
Proof.
  destruct (getAll_agrees_with_get two_testnets.1 two_testnets.2
              (constructor_well_formed
                 (inl [Testnets.Alfajores; Testnets.Fuji]) []))
    as (Hiff & _ & Hlen & _).
  split; [|exact Hlen]. apply Hiff. by exists Testnets.Fuji.
Defined.

Lemma constructor_empty_witness :
  let built :=
    MultiProvider_constructor
      (inl [] : list Testnets.TestnetName + list (Testnets.TestnetName * _))
      two_testnets.2 in
  getDomainConnection built.1 Testnets.Fuji = Throw LookupError ∧
  ready built.1 built.2 = Some (Normal (Some (0, Fulfilled []))).
Proof.
  intros built.
  destruct (constructor_empty
              (inl [] : list Testnets.TestnetName
                        + list (Testnets.TestnetName * _))
              two_testnets.2 Testnets.Fuji [] eq_refl)
    as (_ & Hget & _ & _ & Hready).
  split; [exact Hget | exact Hready].
Defined.

Lemma ready_fulfils_in_order_witness :
  Forall2 (fun dc n => ∃ p t', provider dc = Some p ∧
                               Provider_ready p = Some (t', Fulfilled n) ∧
                               t' ≤ 4)
    [DomainConnection_constructor (with_provider alfajores_rpc);
     DomainConnection_constructor (with_provider fuji_rpc)]
    [44787%Z; 43113%Z].
Proof.
  apply (ready_fulfils_in_order two_reachable.1 two_reachable.2);
    reflexivity.
Defined.

Lemma ready_rejects_with_first_failure_witness :
  Exists (check_fails 3 (LibraryError "NETWORK_ERROR"))
    [DomainConnection_constructor (with_provider alfajores_rpc);
     DomainConnection_constructor (with_provider unreachable_rpc)].
Proof.
  apply (ready_rejects_with_first_failure one_unreachable.1 one_unreachable.2);
    reflexivity.
Defined.

Lemma ready_pending_witness :
  ready one_silent.1 one_silent.2 = Some (Normal None).
Proof.
  apply (ready_pending one_silent.1 one_silent.2
           [DomainConnection_constructor (with_provider alfajores_rpc);
            DomainConnection_constructor (with_provider silent_rpc)]
           eq_refl).
  split; [|split].
  - apply Forall_cons. split; [by eexists|].
    apply Forall_cons. split; [by eexists|]. apply Forall_nil_2.
  - intros t e Hex.
    apply Exists_cons in Hex as [(p & [= <-] & Hp)|Hex]; [discriminate Hp|].
    apply Exists_cons in Hex as [(p & [= <-] & Hp)|Hex]; [discriminate Hp|].
    by apply Exists_nil in Hex.
  - apply Exists_cons_tl, Exists_cons_hd. by exists silent_rpc.
Defined.

Lemma ready_ignores_other_fields_witness :
  ∃ σ',
    invoke 1 (registerSigner deployer) one_unreachable.2
    = Some (Normal tt, σ') ∧
    ready one_unreachable.1 σ'
    = Some (Normal (Some (3, Rejected (LibraryError "NETWORK_ERROR")))).
Proof.
  assert (∃ σ', invoke 1 (registerSigner deployer) one_unreachable.2
                = Some (Normal tt, σ')) as [σ' Hinv].
  { eexists. reflexivity. }
  exists σ'. split; [exact Hinv|].
  rewrite (proj2 (proj2 (ready_ignores_other_fields
                           one_unreachable.1 one_unreachable.2 1))
             deployer (Normal tt) σ' Hinv).
  reflexivity.
Defined.
